(** * OperaExtOptions: SettingStorage and OptionsPage

    A shallow embedding of [storage.js] (the [SettingStorage] class), of
    [options_page.js] (the [OptionsPage] form binder) and of the settings of
    [default_settings.js], together with the properties stated about them.

    - [JS]: JavaScript values, the conversions and comparisons the code
      relies on, and the state-and-exception monad of the methods.  Numbers
      are the integers and the not-a-number value, and a numeral is an
      integer numeral.
    - [JSON]: [JSON.stringify] and [JSON.parse] on these values.
    - [WebStorage]: a web storage object as the code uses it, by reading and
      assigning its properties: the items it stores and the members it has
      besides.
    - [Storage]: [storage.js], in the build without accessor properties (the
      other build adds, for each declared name that is not the name of a
      method, a property that calls [get] and [set]).  The methods take the
      platform of the web storage object and the JSON codec as parameters.
    - [DOM] and [OptionsPage]: the form controls and [options_page.js].
    - [DefaultSettings], [Sample]: the declared settings and a page to run
      the code on.

    The properties follow the definitions: first those of [storage.js], for
    any codec, then their instances on the declared settings, then the
    reference codec (it reads back every well-formed value it writes), then
    those of [options_page.js]. *)

From Stdlib Require Import ZArith String Ascii List DecimalString.
From Stdlib Require DecimalPos DecimalFacts DecimalN.
From stdpp Require Import base option list strings gmap fin_maps.

Set Warnings "-register-all".

Local Open Scope Z_scope.
Local Open Scope string_scope.

(** ** JavaScript values and completions *)

Module JS.

(** Numbers are restricted to the integers and the not-a-number value. *)
Inductive number :=
| NaN
| Int (z : Z).

Inductive value :=
| VNull
| VBool (b : bool)
| VNum (n : number)
| VStr (s : string)
| VArr (items : list value)
| VObj (members : list (string * value)).

(** [ToBoolean]: the truthiness used by [if (x)], [!x] and [x || y]. *)
Definition ToBoolean (v : value) : bool :=
  match v with
  | VNull => false
  | VBool b => b
  | VNum NaN => false
  | VNum (Int z) => negb (Z.eqb z 0)
  | VStr s => negb (String.eqb s EmptyString)
  | VArr _ | VObj _ => true
  end.

Definition code (c : ascii) : N := N_of_ascii c.

Definition number_to_string (n : number) : string :=
  match n with
  | NaN => "NaN"
  | Int z => NilZero.string_of_int (Z.to_int z)
  end.

Fixpoint join (sep : string) (parts : list string) : string :=
  match parts with
  | [] => EmptyString
  | [p] => p
  | p :: parts' => p +:+ sep +:+ join sep parts'
  end.

(** [ToString]: an array is the comma-separated list of its elements, with
    [null] written as the empty string. *)
Fixpoint ToString (v : value) : string :=
  match v with
  | VNull => "null"
  | VBool true => "true"
  | VBool false => "false"
  | VNum n => number_to_string n
  | VStr s => s
  | VArr items =>
      join "," (map (λ x, match x with VNull => EmptyString | _ => ToString x end) items)
  | VObj _ => "[object Object]"
  end.

(** The ASCII white space and line terminators. *)
Definition is_space (c : ascii) : bool :=
  N.eqb (code c) 32 || N.leb 9 (code c) && N.leb (code c) 13.

Fixpoint trim_left (s : string) : string :=
  match s with
  | String c s' => if is_space c then trim_left s' else s
  | EmptyString => s
  end.

Fixpoint trim_right (s : string) : string :=
  match s with
  | String c s' =>
      match trim_right s' with
      | EmptyString => if is_space c then EmptyString else String c EmptyString
      | t => String c t
      end
  | EmptyString => s
  end.

Definition trim (s : string) : string := trim_right (trim_left s).

Definition digit_of (c : ascii) : option Z :=
  if N.leb 48 (code c) && N.leb (code c) 57
  then Some (Z.of_N (code c - 48)) else None.

(** The digits at the head of [s], read after [acc], and what follows them. *)
Fixpoint digits (s : string) (acc : Z) : Z * string :=
  match s with
  | String c s' =>
      match digit_of c with
      | Some d => digits s' (10 * acc + d)
      | None => (acc, s)
      end
  | EmptyString => (acc, s)
  end.

Definition decimal (s : string) : option (Z * string) :=
  match s with
  | String c s' =>
      match digit_of c with
      | Some d => Some (digits s' d)
      | None => None
      end
  | EmptyString => None
  end.

Definition signed_decimal (plus : bool) (s : string) : option (Z * string) :=
  match s with
  | String "-"%char s' => r ← decimal s'; Some (- r.1, r.2)
  | String "+"%char s' => if plus then decimal s' else None
  | _ => decimal s
  end.

(** [ToNumber] of a string, for integer numerals: the empty and the blank
    string are [0], a string that is not a numeral is [NaN].  Numerals with a
    fraction, an exponent or a radix prefix denote numbers that [number] does
    not have. *)
Definition StringToNumber (s : string) : number :=
  match trim s with
  | EmptyString => Int 0
  | t =>
      match signed_decimal true t with
      | Some (z, EmptyString) => Int z
      | _ => NaN
      end
  end.

Definition ToNumber (v : value) : number :=
  match v with
  | VNull => Int 0
  | VBool b => Int (if b then 1 else 0)
  | VNum n => n
  | VStr s => StringToNumber s
  | VArr _ | VObj _ => StringToNumber (ToString v)
  end.

(** [parseFloat]: the integer numeral at the head of the string. *)
Definition parseFloat (s : string) : number :=
  match signed_decimal true (trim_left s) with
  | Some r => Int r.1
  | None => NaN
  end.

Definition isNaN (v : value) : bool :=
  match ToNumber v with NaN => true | Int _ => false end.

Definition ToPrimitive (v : value) : value :=
  match v with
  | VArr _ | VObj _ => VStr (ToString v)
  | _ => v
  end.

Definition number_eqb (a b : number) : bool :=
  match a, b with
  | Int x, Int y => Z.eqb x y
  | _, _ => false
  end.

Definition number_ltb (a b : number) : bool :=
  match a, b with
  | Int x, Int y => Z.ltb x y
  | _, _ => false
  end.

(** [x == y].  Two objects are equal when they are the same object; the
    values compared by the code below always have a primitive on one side,
    and two object values are taken to be distinct objects. *)
Definition equals (x y : value) : bool :=
  match x, y with
  | VNull, VNull => true
  | VNull, _ | _, VNull => false
  | (VArr _ | VObj _), (VArr _ | VObj _) => false
  | _, _ =>
      match ToPrimitive x, ToPrimitive y with
      | VStr a, VStr b => String.eqb a b
      | a, b => number_eqb (ToNumber a) (ToNumber b)
      end
  end.

(** [x < y]; [x > y] is [less_than y x]. *)
Definition less_than (x y : value) : bool :=
  match ToPrimitive x, ToPrimitive y with
  | VStr a, VStr b => String.ltb a b
  | a, b => number_ltb (ToNumber a) (ToNumber b)
  end.

Definition lower (c : ascii) : ascii :=
  if N.leb 65 (code c) && N.leb (code c) 90
  then ascii_of_N (code c + 32) else c.

Fixpoint toLowerCase (s : string) : string :=
  match s with
  | EmptyString => EmptyString
  | String c s' => String (lower c) (toLowerCase s')
  end.

(** An object that the code builds from [{}] by assignments [data[k] = v]:
    its own properties and, once an assignment to [__proto__] has replaced
    it, its prototype. *)
Record object := mkObject {
  own : gmap string value;
  proto : option value
}.

Definition empty_object : object := mkObject ∅ None.

(** [data[k] = v] on such an object.  The name [__proto__] is an accessor
    that every object inherits: an assignment to it adds no property, and
    makes [v] the prototype when [v] is an object or [null]. *)
Definition assign_property (k : string) (v : value) (data : object) : object :=
  if String.eqb k "__proto__" then
    match v with
    | VNull | VArr _ | VObj _ => mkObject (own data) (Some v)
    | _ => data
    end
  else mkObject (<[k := v]> (own data)) (proto data).

Inductive error :=
| SyntaxError
| TypeError
| Error (message : string).

(** How a call ends: with a value, or with a thrown error. *)
Inductive completion (A : Type) :=
| Normal (a : A)
| Throw (e : error).
Arguments Normal {A} a.
Arguments Throw {A} e.

(** A procedure over a mutable state [S].  The state reached when an error
    is thrown is kept, as it is in JavaScript. *)
Definition Proc (S A : Type) : Type := S → completion A * S.

#[global] Instance Proc_ret {S} : MRet (Proc S) :=
  λ A a s, (Normal a, s).

#[global] Instance Proc_bind {S} : MBind (Proc S) :=
  λ A B k m s,
    match m s with
    | (Normal a, s') => k a s'
    | (Throw e, s') => (Throw e, s')
    end.

Definition throw {S A} (e : error) : Proc S A := λ s, (Throw e, s).
Definition gets {S A} (f : S → A) : Proc S A := λ s, (Normal (f s), s).
Definition modify {S} (f : S → S) : Proc S unit := λ s, (Normal tt, f s).

(** [for (var i = 0; i < xs.length; i++) body(xs[i])] over a list that the
    body does not change. *)
Fixpoint forEach {S A} (xs : list A) (body : A → Proc S unit) : Proc S unit :=
  match xs with
  | [] => mret tt
  | x :: xs' => body x ;; forEach xs' body
  end.

Definition when {S} (c : bool) (m : Proc S unit) : Proc S unit :=
  if c then m else mret tt.

(** The listeners of an event: each one runs, also after another has thrown;
    the first error is the one reported. *)
Fixpoint listeners {S A} (xs : list A) (handler : A → Proc S unit)
    : Proc S unit :=
  match xs with
  | [] => mret tt
  | x :: xs' =>
      λ s, let r := handler x s in
           let r' := listeners xs' handler r.2 in
           (match r.1 with Throw e => Throw e | Normal _ => r'.1 end, r'.2)
  end.

End JS.

Import JS.

(** ** The platform's JSON

    [JSON.stringify] and [JSON.parse] on the values above.  The methods
    below take the codec as a parameter; this one runs them on concrete
    storages. *)

Module JSON.

Definition dquote : ascii := "034"%char.
Definition backslash : ascii := "092"%char.

Definition hex_digit (n : N) : ascii :=
  match String.get (N.to_nat n) "0123456789abcdef" with
  | Some c => c
  | None => "0"%char
  end.

(** [Quote]: how [JSON.stringify] writes one character of a string. *)
Definition escape_char (c : ascii) : string :=
  if Ascii.eqb c dquote then String backslash (String dquote EmptyString)
  else if Ascii.eqb c backslash then String backslash (String backslash EmptyString)
  else if N.eqb (code c) 8 then "\b"
  else if N.eqb (code c) 12 then "\f"
  else if N.eqb (code c) 10 then "\n"
  else if N.eqb (code c) 13 then "\r"
  else if N.eqb (code c) 9 then "\t"
  else if N.ltb (code c) 32 then
    "\u00" +:+ String (hex_digit (code c / 16)) (String (hex_digit (code c mod 16)) EmptyString)
  else String c EmptyString.

Fixpoint escape (s : string) : string :=
  match s with
  | EmptyString => EmptyString
  | String c s' => escape_char c +:+ escape s'
  end.

Definition quote (s : string) : string :=
  String dquote (escape s +:+ String dquote EmptyString).

(** [JSON.stringify(v)]; a not-a-number is written as [null]. *)
Fixpoint stringify (v : value) : string :=
  match v with
  | VNull => "null"
  | VBool true => "true"
  | VBool false => "false"
  | VNum NaN => "null"
  | VNum (Int z) => number_to_string (Int z)
  | VStr s => quote s
  | VArr items => "[" +:+ join "," (map stringify items) +:+ "]"
  | VObj members =>
      "{" +:+ join "," (map (λ m, quote m.1 +:+ ":" +:+ stringify m.2) members) +:+ "}"
  end.

Definition is_ws (c : ascii) : bool :=
  N.eqb (code c) 32 || N.eqb (code c) 9 || N.eqb (code c) 10 || N.eqb (code c) 13.

Fixpoint skip_ws (s : string) : string :=
  match s with
  | String c s' => if is_ws c then skip_ws s' else s
  | EmptyString => s
  end.

Definition hex_of (c : ascii) : option N :=
  let n := code c in
  if N.leb 48 n && N.leb n 57 then Some (n - 48)%N
  else if N.leb 97 n && N.leb n 102 then Some (n - 87)%N
  else if N.leb 65 n && N.leb n 70 then Some (n - 55)%N
  else None.

(** The integer part of a JSON numeral, without its sign. *)
Definition unsigned_integer (s : string) : option (Z * string) :=
  match s with
  | String c s' =>
      match digit_of c with
      | Some 0 => Some (0, s')
      | Some d => Some (digits s' d)
      | None => None
      end
  | EmptyString => None
  end.

(** A numeral that continues with a fraction or an exponent denotes a number
    outside the integers and is not accepted by this codec. *)
Definition integral (r : Z * string) : option (Z * string) :=
  match r.2 with
  | String c _ =>
      if Ascii.eqb c "."%char || Ascii.eqb c "e"%char || Ascii.eqb c "E"%char
      then None else Some r
  | EmptyString => Some r
  end.

(** What follows the character [c] at the head of [s]. *)
Definition expect (c : ascii) (s : string) : option string :=
  match s with
  | String a s' => if Ascii.eqb a c then Some s' else None
  | EmptyString => None
  end.

Definition numeral (s : string) : option (Z * string) :=
  match expect "-"%char s with
  | Some s' => r ← unsigned_integer s'; r ← integral r; Some (- r.1, r.2)
  | None => r ← unsigned_integer s; integral r
  end.

(** The characters of a string literal after its opening quote. *)
Fixpoint string_body (s : string) : option (string * string) :=
  match s with
  | EmptyString => None
  | String c s' =>
      if Ascii.eqb c dquote then Some (EmptyString, s')
      else if Ascii.eqb c backslash then
        match s' with
        | String e s'' =>
            let plain (c' : ascii) :=
              r ← string_body s''; Some (String c' r.1, r.2) in
            if Ascii.eqb e dquote then plain dquote
            else if Ascii.eqb e backslash then plain backslash
            else if Ascii.eqb e "/"%char then plain "/"%char
            else if Ascii.eqb e "b"%char then plain "008"%char
            else if Ascii.eqb e "f"%char then plain "012"%char
            else if Ascii.eqb e "n"%char then plain "010"%char
            else if Ascii.eqb e "r"%char then plain "013"%char
            else if Ascii.eqb e "t"%char then plain "009"%char
            else if Ascii.eqb e "u"%char then
              match s'' with
              | String h1 (String h2 (String h3 (String h4 s3))) =>
                  a ← hex_of h1; b ← hex_of h2; c1 ← hex_of h3; d ← hex_of h4;
                  if N.eqb a 0 && N.eqb b 0 then
                    r ← string_body s3;
                    Some (String (ascii_of_N (16 * c1 + d)) r.1, r.2)
                  else None
              | _ => None
              end
            else None
        | EmptyString => None
        end
      else if N.ltb (code c) 32 then None
      else r ← string_body s'; Some (String c r.1, r.2)
  end.

(** What follows [word] at the head of [s]. *)
Fixpoint after (word s : string) : option string :=
  match word, s with
  | EmptyString, _ => Some s
  | String a word', String b s' =>
      if Ascii.eqb a b then after word' s' else None
  | String _ _, EmptyString => None
  end.

Definition literal (word : string) (v : value) (s : string)
    : option (value * string) :=
  rest ← after word s; Some (v, rest).

(** A later member with the same key replaces the earlier one. *)
Fixpoint put_member (k : string) (v : value) (ms : list (string * value))
    : list (string * value) :=
  match ms with
  | [] => [(k, v)]
  | m :: ms' => if String.eqb m.1 k then (k, v) :: ms' else m :: put_member k v ms'
  end.

Fixpoint value_at (fuel : nat) (s : string) : option (value * string) :=
  match fuel with
  | O => None
  | S fuel' =>
      let s := skip_ws s in
      match s with
      | EmptyString => None
      | String c s' =>
          if Ascii.eqb c "n"%char then literal "null" VNull s
          else if Ascii.eqb c "t"%char then literal "true" (VBool true) s
          else if Ascii.eqb c "f"%char then literal "false" (VBool false) s
          else if Ascii.eqb c dquote then
            r ← string_body s'; Some (VStr r.1, r.2)
          else if Ascii.eqb c "["%char then
            match expect "]"%char (skip_ws s') with
            | Some rest => Some (VArr [], rest)
            | None => r ← elements_at fuel' s'; Some (VArr r.1, r.2)
            end
          else if Ascii.eqb c "{"%char then
            match expect "}"%char (skip_ws s') with
            | Some rest => Some (VObj [], rest)
            | None => r ← members_at fuel' s' []; Some (VObj r.1, r.2)
            end
          else r ← numeral s; Some (VNum (Int r.1), r.2)
      end
  end
with elements_at (fuel : nat) (s : string) : option (list value * string) :=
  match fuel with
  | O => None
  | S fuel' =>
      r ← value_at fuel' s;
      match expect ","%char (skip_ws r.2) with
      | Some rest => r' ← elements_at fuel' rest; Some (r.1 :: r'.1, r'.2)
      | None => rest ← expect "]"%char (skip_ws r.2); Some ([r.1], rest)
      end
  end
with members_at (fuel : nat) (s : string) (acc : list (string * value))
    : option (list (string * value) * string) :=
  match fuel with
  | O => None
  | S fuel' =>
      s' ← expect dquote (skip_ws s);
      k ← string_body s';
      s'' ← expect ":"%char (skip_ws k.2);
      r ← value_at fuel' s'';
      let acc' := put_member k.1 r.1 acc in
      match expect ","%char (skip_ws r.2) with
      | Some rest => members_at fuel' rest acc'
      | None => rest ← expect "}"%char (skip_ws r.2); Some (acc', rest)
      end
  end.

(** [JSON.parse(text)]; [None] stands for the [SyntaxError] it throws. *)
Definition parse (text : string) : option value :=
  r ← value_at (2 + 2 * String.length text) text;
  match skip_ws r.2 with
  | EmptyString => Some r.1
  | _ => None
  end.

(** The values that [JSON.stringify] writes faithfully: no not-a-number, and
    no object with two members of the same name. *)
Fixpoint wellformed (v : value) : Prop :=
  match v with
  | VNum NaN => False
  | VArr items =>
      (fix all (l : list value) : Prop :=
         match l with
         | [] => True
         | x :: l' => wellformed x ∧ all l'
         end) items
  | VObj members =>
      NoDup members.*1
      ∧ (fix all (l : list (string * value)) : Prop :=
           match l with
           | [] => True
           | m :: l' => wellformed m.2 ∧ all l'
           end) members
  | _ => True
  end.

(** The number of values in [v]. *)
Fixpoint weight (v : value) : nat :=
  match v with
  | VArr items =>
      S ((fix sum (l : list value) : nat :=
            match l with
            | [] => O
            | x :: l' => S (weight x + sum l')
            end) items)
  | VObj members =>
      S ((fix sum (l : list (string * value)) : nat :=
            match l with
            | [] => O
            | m :: l' => S (weight m.2 + sum l')
            end) members)
  | _ => 1%nat
  end.

(** [rest] does not go on with a digit. *)
Definition no_digit (rest : string) : Prop :=
  ∀ acc, digits rest acc = (acc, rest).

(** The first character of the numeral of an integer. *)
Definition numeral_start (c : ascii) : Prop :=
  c = "-"%char ∨ is_Some (digit_of c).

(** What may follow a value inside an array or an object, or at the end of
    the text. *)
Definition delimited (rest : string) : Prop :=
  match rest with
  | EmptyString => True
  | String c _ => c = ","%char ∨ c = "]"%char ∨ c = "}"%char
  end.

(** The first character of what [stringify] writes. *)
Definition value_start (c : ascii) : Prop :=
  is_ws c = false ∧ Ascii.eqb c "]" = false ∧ Ascii.eqb c "}" = false.

(** How [stringify] writes one member of an object. *)
Definition member (m : string * value) : string :=
  quote m.1 +:+ ":" +:+ stringify m.2.

(** [v], written and followed by [rest], is read back with [rest] left. *)
Definition reads_back (v : value) : Prop :=
  ∀ (fuel : nat) (rest : string),
    (weight v ≤ fuel)%nat → delimited rest →
    value_at fuel (stringify v +:+ rest) = Some (v, rest).

End JSON.

(** ** The web storage object

    A web storage object ([widget.preferences], [localStorage], or the object
    given as [options.storage]) stores items: strings under string keys.  The
    code does not call [getItem] and [setItem]; it reads and assigns the
    properties of the object, [storage[k]] and [storage[k] = v].  A name that
    is a member of the object (for a web storage [length], [key], [getItem],
    [setItem], [removeItem] and [clear], and what every object inherits, as
    [constructor] and [toString]) then gives the member and not an item. *)

Module WebStorage.

(** What depends on the platform: the names that are members of the storage
    object; the string that [JSON.parse] makes of a member (the member is no
    string, and [JSON.parse] converts its argument to one), which may depend
    on the items; and whether an assignment at the name of a member stores
    an item. *)
Record Platform := mkPlatform {
  member : string → bool;
  member_text : string → gmap string string → string;
  stores_members : bool
}.

(** [storage[k]]: [None] is [undefined]; a member is read as the string that
    [JSON.parse] makes of it. *)
Definition read (web : Platform) (items : gmap string string) (k : string)
    : option string :=
  if member web k then Some (member_text web k items) else items !! k.

(** [storage[k] = v] *)
Definition write (web : Platform) (k v : string) (items : gmap string string)
    : gmap string string :=
  if member web k && negb (stores_members web) then items
  else <[k := v]> items.

(** The members of a web storage object in a browser: those of the Storage
    interface and those of [Object.prototype]. *)
Definition members : list string :=
  [ "length"; "key"; "getItem"; "setItem"; "removeItem"; "clear";
    "constructor"; "toString"; "toLocaleString"; "valueOf"; "hasOwnProperty";
    "isPrototypeOf"; "propertyIsEnumerable"; "__proto__";
    "__defineGetter__"; "__defineSetter__"; "__lookupGetter__";
    "__lookupSetter__" ].

(** A platform with these members, on which [length] is the number of items,
    [__proto__] is an object and the other members are functions; [stores]
    tells whether an assignment at the name of a member stores an item. *)
Definition browser (stores : bool) : Platform :=
  mkPlatform
    (λ k, bool_decide (k ∈ members))
    (λ k items,
       if String.eqb k "length"
       then number_to_string (Int (Z.of_nat (size items)))
       else if String.eqb k "__proto__" then "[object Storage]"
       else "function " +:+ k +:+ "() { [native code] }")
    stores.

(** The platform that runs the page and the examples: such an assignment
    stores nothing. *)
Definition standard : Platform := browser false.

End WebStorage.

(** ** storage.js *)

Module Storage.

(** The fields of a [SettingStorage] object.  [firstRun] is the variable
    captured by the [firstRun] getter.  The [storage] field refers to a web
    storage object that is shared with every other [SettingStorage] built
    over it, so its items are kept next to the object, in [state]. *)
Record SettingStorage := mkSettingStorage {
  defaults : list (string * value);
  prefix : string;
  initSetting : string;
  globalInit : bool;
  firstRun : bool
}.

Record state := mkState {
  this : SettingStorage;
  storage : gmap string string
}.

Definition set_defaults (d : list (string * value)) (s : state) : state :=
  mkState (mkSettingStorage d (prefix (this s)) (initSetting (this s))
             (globalInit (this s)) (firstRun (this s))) (storage s).
Definition set_prefix (p : string) (s : state) : state :=
  mkState (mkSettingStorage (defaults (this s)) p (initSetting (this s))
             (globalInit (this s)) (firstRun (this s))) (storage s).
Definition set_initSetting (n : string) (s : state) : state :=
  mkState (mkSettingStorage (defaults (this s)) (prefix (this s)) n
             (globalInit (this s)) (firstRun (this s))) (storage s).
Definition set_globalInit (g : bool) (s : state) : state :=
  mkState (mkSettingStorage (defaults (this s)) (prefix (this s))
             (initSetting (this s)) g (firstRun (this s))) (storage s).
Definition set_firstRun (f : bool) (s : state) : state :=
  mkState (mkSettingStorage (defaults (this s)) (prefix (this s))
             (initSetting (this s)) (globalInit (this s)) f) (storage s).
Definition set_storage (web : WebStorage.Platform) (k v : string) (s : state)
    : state :=
  mkState (this s) (WebStorage.write web k v (storage s)).

(** The options object of the constructor; an absent field is [None].
    [options.storage] chooses the web storage object, which here is the
    [storage] component of the state the constructor runs in. *)
Record Options := mkOptions {
  opt_prefix : option string;
  opt_initSetting : option string;
  opt_globalInit : option bool
}.

(** [this.f], [this.storage[k]] and [this.storage[k] = v]. *)
Definition field {A} (f : SettingStorage → A) : Proc state A :=
  gets (λ s, f (this s)).
Definition storage_read (web : WebStorage.Platform) (k : string)
    : Proc state (option string) :=
  gets (λ s, WebStorage.read web (storage s) k).
Definition storage_write (web : WebStorage.Platform) (k v : string)
    : Proc state unit :=
  modify (set_storage web k v).

(** [value !== undefined], for the result of a property read. *)
Definition isDefined {A} (x : option A) : bool :=
  match x with Some _ => true | None => false end.

Section Methods.

(** The platform of the web storage object, and the platform's
    [JSON.stringify] and [JSON.parse]; [None] is a thrown [SyntaxError]. *)
Variable web : WebStorage.Platform.
Variable JSON_stringify : value → string.
Variable JSON_parse : string → option value.

Definition get (name : string) : Proc state value :=
  p ← field prefix;
  data ← storage_read web (p +:+ name);
  match data with
  | None => mret VNull
  | Some text =>
      match JSON_parse text with
      | Some v => mret v
      | None => throw SyntaxError
      end
  end.

Definition set (name : string) (v : value) : Proc state unit :=
  let temp := JSON_stringify v in
  p ← field prefix;
  storage_write web (p +:+ name) temp.

Definition getInit : Proc state value :=
  g ← field globalInit;
  if (g : bool) then
    temp ← field prefix;
    modify (set_prefix EmptyString) ;;
    n ← field initSetting;
    init ← get n;
    modify (set_prefix temp) ;;
    mret init
  else
    n ← field initSetting;
    get n.

Definition setInit (v : value) : Proc state unit :=
  g ← field globalInit;
  if (g : bool) then
    temp ← field prefix;
    modify (set_prefix EmptyString) ;;
    n ← field initSetting;
    set n v ;;
    modify (set_prefix temp)
  else
    n ← field initSetting;
    set n v.

(** The private [init(defaults, options)] that ends the constructor. *)
Definition init_private (defs : option (list (string * value)))
    (options : option Options) : Proc state unit :=
  match defs with
  | Some d => modify (set_defaults d)
  | None => mret tt
  end ;;
  match options with
  | Some o =>
      match opt_prefix o with
      | Some p => modify (set_prefix p) | None => mret tt end ;;
      match opt_initSetting o with
      | Some n => modify (set_initSetting n) | None => mret tt end ;;
      match opt_globalInit o with
      | Some g => modify (set_globalInit g) | None => mret tt end
  | None => mret tt
  end ;;
  flag ← getInit;
  when (negb (ToBoolean flag)) (modify (set_firstRun true)).

Definition fillDefaults : Proc state unit :=
  ds ← field defaults;
  forEach ds (λ d,
    p ← field prefix;
    data ← storage_read web (p +:+ d.1);
    when (negb (isDefined data)) (set d.1 d.2)).

Definition init : Proc state unit :=
  fillDefaults ;;
  f ← field firstRun;
  when f (setInit (VBool true)).

Fixpoint reset_loop (ds : list (string * value)) (name : string)
    : Proc state unit :=
  match ds with
  | [] => set name VNull
  | d :: ds' =>
      if String.eqb d.1 name then set name d.2 else reset_loop ds' name
  end.

Definition reset (name : string) : Proc state unit :=
  ds ← field defaults;
  reset_loop ds name.

Definition resetAll : Proc state unit :=
  ds ← field defaults;
  forEach ds (λ d, set d.1 d.2).

Fixpoint getAll_loop (ds : list (string * value)) (data : object)
    : Proc state object :=
  match ds with
  | [] => mret data
  | d :: ds' => v ← get d.1; getAll_loop ds' (assign_property d.1 v data)
  end.

Definition getAll : Proc state object :=
  ds ← field defaults;
  getAll_loop ds empty_object.

(** [data] lists the enumerable properties of the argument in the order
    [for (var name in data)] visits them. *)
Definition setAll (data : list (string * value)) : Proc state unit :=
  forEach data (λ d, set d.1 d.2).

(** [new SettingStorage(defaults, options)] over the web storage [σ]. *)
Definition blank : SettingStorage :=
  mkSettingStorage [] EmptyString "__initialized" false false.

Definition new (defs : option (list (string * value)))
    (options : option Options) (σ : gmap string string)
    : completion SettingStorage :=
  match init_private defs options (mkState blank σ) with
  | (Normal _, s) => Normal (this s)
  | (Throw e, _) => Throw e
  end.

(** A value is serializable when it survives the trip through the codec. *)
Definition serializable (v : value) : Prop :=
  JSON_parse (JSON_stringify v) = Some v.

(** The calls a client can make on a [SettingStorage]. *)
Inductive call :=
| CallInit
| CallReset (name : string)
| CallResetAll
| CallFillDefaults
| CallGet (name : string)
| CallSet (name : string) (v : value)
| CallGetAll
| CallSetAll (data : list (string * value)).

Definition run_call (c : call) : Proc state unit :=
  match c with
  | CallInit => init
  | CallReset name => reset name
  | CallResetAll => resetAll
  | CallFillDefaults => fillDefaults
  | CallGet name => get name ;; mret tt
  | CallSet name v => set name v
  | CallGetAll => getAll ;; mret tt
  | CallSetAll data => setAll data
  end.

(** A client that makes the calls one after the other and goes on after a
    thrown error. *)
Definition exec (calls : list call) (s : state) : state :=
  foldl (λ s c, (run_call c s).2) s calls.

End Methods.

(** The declared default of [name]: the value of the first pair of the
    list that carries this name. *)
Fixpoint declared_default (ds : list (string * value)) (name : string)
    : option value :=
  match ds with
  | [] => None
  | d :: ds' =>
      if String.eqb d.1 name then Some d.2 else declared_default ds' name
  end.

(** The storage key of the init flag. *)
Definition initKey (o : SettingStorage) : string :=
  if globalInit o then initSetting o else prefix o +:+ initSetting o.

(** The fields the constructor assigns from its arguments. *)
Definition configured (defs : option (list (string * value)))
    (options : option Options) (first : bool) : SettingStorage :=
  mkSettingStorage
    (default [] defs)
    (default EmptyString (options ≫= opt_prefix))
    (default "__initialized" (options ≫= opt_initSetting))
    (default false (options ≫= opt_globalInit))
    first.

End Storage.

(** ** The document

    The form controls of the options page and what the platform does when
    the script reads and assigns their properties. *)

Module DOM.

(** An element of the document.  [type], [value] and [checked] are the
    properties of these names; [attributes] holds the content attributes
    ([name], [min], [max], [data-loadfunc], ...); [form] is the form owner;
    [options] lists the values of the options of a [select] element and is
    [None] for every other element. *)
Record Element := mkElement {
  tagName : string;
  type : string;
  value : string;
  checked : bool;
  attributes : gmap string string;
  form : option nat;
  options : option (list string)
}.

Definition getAttribute (e : Element) (a : string) : option string :=
  attributes e !! a.

Definition hasAttribute (e : Element) (a : string) : bool :=
  match attributes e !! a with Some _ => true | None => false end.

(** [element.name], [element.min] and [element.max] reflect the attributes. *)
Definition name (e : Element) : string := default EmptyString (attributes e !! "name").
Definition min (e : Element) : string := default EmptyString (attributes e !! "min").
Definition max (e : Element) : string := default EmptyString (attributes e !! "max").

(** [element.length]: the number of options of a [select], undefined for
    the other controls. *)
Definition length (e : Element) : option nat := List.length <$> options e.

(** A valid number of HTML, among the integer numerals. *)
Definition valid_number (s : string) : option Z :=
  match signed_decimal false s with
  | Some (z, EmptyString) => Some z
  | _ => None
  end.

Definition numeric_type (e : Element) : bool :=
  String.eqb (type e) "number" || String.eqb (type e) "range".

(** [element.valueAsNumber] *)
Definition valueAsNumber (e : Element) : number :=
  if numeric_type e then
    match valid_number (value e) with
    | Some z => Int z
    | None => NaN
    end
  else NaN.

Fixpoint strip_newlines (s : string) : string :=
  match s with
  | EmptyString => EmptyString
  | String c s' =>
      if N.eqb (code c) 10 || N.eqb (code c) 13 then strip_newlines s'
      else String c (strip_newlines s')
  end.

Definition one_line (e : Element) : bool :=
  String.eqb (type e) "text" || String.eqb (type e) "search"
  || String.eqb (type e) "tel" || String.eqb (type e) "password".

(** The value sanitization that follows an assignment to [element.value]:
    a [select] shows the option with the assigned value or none; a number
    control shows a valid number or nothing; a range control shows a number
    between its bounds (0 and 100 unless declared), the middle one when the
    assigned string is no number; a one-line text control drops the line
    breaks; the controls of the remaining types are taken to show the
    assigned string. *)
Definition sanitize (e : Element) (s : string) : string :=
  match options e with
  | Some opts => if bool_decide (s ∈ opts) then s else EmptyString
  | None =>
      if one_line e then strip_newlines s
      else if String.eqb (type e) "number" then
        match valid_number s with Some _ => s | None => EmptyString end
      else if String.eqb (type e) "range" then
        let lo := default 0 (valid_number (min e)) in
        let hi := default 100 (valid_number (max e)) in
        match valid_number s with
        | Some z =>
            if Z.ltb z lo then number_to_string (Int lo)
            else if Z.leb lo hi && Z.ltb hi z then number_to_string (Int hi)
            else s
        | None =>
            number_to_string
              (Int (if Z.ltb hi lo then lo else lo + (hi - lo + 1) / 2))
        end
      else s
  end.

(** [element.value = v]: [null] is assigned to an [input] or a [textarea]
    as the empty string. *)
Definition assign_value (v : JS.value) (e : Element) : Element :=
  let s := match v, options e with
           | VNull, None => EmptyString
           | _, _ => ToString v
           end in
  mkElement (tagName e) (type e) (sanitize e s) (checked e) (attributes e)
    (form e) (options e).

(** [element.checked = v] *)
Definition assign_checked (v : JS.value) (e : Element) : Element :=
  mkElement (tagName e) (type e) (value e) (ToBoolean v) (attributes e)
    (form e) (options e).

(** A number control whose [min] and [max] are the integers [lo] and [hi]. *)
Definition bounded_number (e : Element) (lo hi : Z) : Prop :=
  type e = "number" ∧ options e = None
  ∧ min e = number_to_string (Int lo)
  ∧ max e = number_to_string (Int hi).

(** The elements a form lists in [form.elements]. *)
Definition listed (e : Element) : bool :=
  let t := toLowerCase (tagName e) in
  (String.eqb t "input" && negb (String.eqb (type e) "image"))
  || String.eqb t "select" || String.eqb t "textarea" || String.eqb t "button"
  || String.eqb t "fieldset" || String.eqb t "object" || String.eqb t "output".

(** The positions in [doc] of the elements that satisfy [p], in document
    order. *)
Definition select (p : Element → bool) (doc : list Element) : list nat :=
  (filter (λ ie, p ie.2 = true) (imap pair doc)).*1.

End DOM.

(** ** options_page.js *)

Module OptionsPage.

(** What a name of the global scope holds: a function or another value. *)
Inductive Global :=
| GFunction (f : value → value)
| GValue (v : value).

(** The page: its document, whose elements are referred to by their
    position; the global scope; the items of the web storage that the
    [SettingStorage] of the page reads and writes, a web storage of the
    [standard] platform; and the variables of [OptionsPage].  [loading]
    records that [onDOMContentLoaded] is registered, [change] lists the
    elements whose change event calls [elementChanged], and [click] the pairs
    of a button and the element that a click on the button resets. *)
Record Page := mkPage {
  document : list DOM.Element;
  window : gmap string Global;
  preferences : gmap string string;
  storage : option Storage.SettingStorage;
  initialized : bool;
  formElements : list nat;
  loading : bool;
  change : list nat;
  click : list (nat * nat)
}.

Definition set_document (d : list DOM.Element) (pg : Page) : Page :=
  mkPage d (window pg) (preferences pg) (storage pg) (initialized pg)
    (formElements pg) (loading pg) (change pg) (click pg).
Definition set_preferences (σ : gmap string string) (pg : Page) : Page :=
  mkPage (document pg) (window pg) σ (storage pg) (initialized pg)
    (formElements pg) (loading pg) (change pg) (click pg).
Definition set_storage (o : Storage.SettingStorage) (pg : Page) : Page :=
  mkPage (document pg) (window pg) (preferences pg) (Some o) (initialized pg)
    (formElements pg) (loading pg) (change pg) (click pg).
Definition set_initialized (b : bool) (pg : Page) : Page :=
  mkPage (document pg) (window pg) (preferences pg) (storage pg) b
    (formElements pg) (loading pg) (change pg) (click pg).
Definition set_formElements (ids : list nat) (pg : Page) : Page :=
  mkPage (document pg) (window pg) (preferences pg) (storage pg)
    (initialized pg) ids (loading pg) (change pg) (click pg).
Definition set_loading (b : bool) (pg : Page) : Page :=
  mkPage (document pg) (window pg) (preferences pg) (storage pg)
    (initialized pg) (formElements pg) b (change pg) (click pg).
Definition set_change (ids : list nat) (pg : Page) : Page :=
  mkPage (document pg) (window pg) (preferences pg) (storage pg)
    (initialized pg) (formElements pg) (loading pg) ids (click pg).
Definition set_click (ps : list (nat * nat)) (pg : Page) : Page :=
  mkPage (document pg) (window pg) (preferences pg) (storage pg)
    (initialized pg) (formElements pg) (loading pg) (change pg) ps.

(** Reading a property of the element at [id]. *)
Definition element (id : nat) : Proc Page DOM.Element :=
  λ pg, match document pg !! id with
        | Some e => (Normal e, pg)
        | None => (Throw TypeError, pg)
        end.

(** Assigning to a property of the element at [id]. *)
Definition assign (id : nat) (f : DOM.Element → DOM.Element) : Proc Page unit :=
  modify (λ pg, set_document (alter f id (document pg)) pg).

(** A call of a method of [storage]; a [TypeError] while it is [null]. *)
Definition on_storage {A} (m : Proc Storage.state A) : Proc Page A :=
  λ pg, match storage pg with
        | None => (Throw TypeError, pg)
        | Some o =>
            let r := m (Storage.mkState o (preferences pg)) in
            (r.1, set_preferences (Storage.storage r.2)
                    (set_storage (Storage.this r.2) pg))
        end.

Fixpoint split (sep : ascii) (s : string) : list string :=
  match s with
  | EmptyString => [EmptyString]
  | String c s' =>
      if Ascii.eqb c sep then EmptyString :: split sep s'
      else match split sep s' with
           | w :: ws => String c w :: ws
           | [] => [String c EmptyString]
           end
  end.

(** [hash(str)]: the object whose keys are the words of [str]; [h[k] === true]
    is [k ∈ h]. *)
Definition hash (str : string) : gset string :=
  list_to_set (split ","%char str).

Definition skip : gset string := hash "hidden,submit,image,file,reset,button".
Definition numeric : gset string := hash "number,range".
Definition checkable : gset string := hash "checkbox,radio".
Definition radio : gset string := hash "radio".

Definition isInput (e : DOM.Element) : bool :=
  let tagname := toLowerCase (DOM.tagName e) in
  String.eqb tagname "input" || String.eqb tagname "select"
  || String.eqb tagname "textarea".

(** [x || y] on strings. *)
Definition or_else (x : option string) (y : string) : string :=
  match x with
  | Some s => if String.eqb s EmptyString then y else s
  | None => y
  end.

(** The first checked element of [inputs]. *)
Fixpoint first_checked (doc : list DOM.Element) (inputs : list nat) : value :=
  match inputs with
  | [] => VNull
  | i :: inputs' =>
      match doc !! i with
      | Some e => if DOM.checked e then VStr (DOM.value e)
                  else first_checked doc inputs'
      | None => first_checked doc inputs'
      end
  end.

(** [element.form.elements[name]] is undefined when no listed element of the
    form has this name, the element itself when exactly one has, and the list
    of them otherwise; an [input] element has no [length], so that the loop
    over a single element ends at once. *)
Definition getRadioValue (id : nat) : Proc Page value :=
  e ← element id;
  let name := DOM.name e in
  doc ← gets document;
  match DOM.form e with
  | Some f =>
      let named :=
        if String.eqb name EmptyString then []
        else DOM.select (λ x, DOM.listed x
                              && bool_decide (DOM.form x = Some f)
                              && String.eqb (DOM.name x) name) doc in
      match named with
      | [] => throw TypeError
      | [_] => mret VNull
      | inputs => mret (first_checked doc inputs)
      end
  | None =>
      let inputs :=
        DOM.select (λ x, String.eqb (toLowerCase (DOM.tagName x)) "input"
                         && String.eqb (DOM.type x) "radio"
                         && bool_decide (DOM.getAttribute x "name" = Some name))
          doc in
      mret (first_checked doc inputs)
  end.

(** [getAttribute] gives [null] for a missing attribute, which is neither
    undefined, nor a function, nor a string; a present attribute is a string
    and is looked up in the global scope. *)
Definition getTransformFunction (e : DOM.Element) (type : string)
    : Proc Page (option Global) :=
  match DOM.getAttribute e ("data-" +:+ type) with
  | None => mret None
  | Some func => w ← gets window; mret (w !! func)
  end.

(** [if (filter) value = filter(value)]: calling a value that is not a
    function throws a [TypeError]. *)
Definition apply_filter (filter : option Global) (v : value) : Proc Page value :=
  match filter with
  | None => mret v
  | Some (GFunction f) => mret (f v)
  | Some (GValue g) => if ToBoolean g then throw TypeError else mret v
  end.

(** The only callback passed to [walkElements] returns nothing, so the list
    of results that it builds stays empty and is left out. *)
Definition walkElements (callback : nat → string → string → Proc Page unit)
    : Proc Page unit :=
  ids ← gets formElements;
  forEach ids (λ id,
    e ← element id;
    let type := toLowerCase (DOM.type e) in
    let name := DOM.name e in
    if bool_decide (type ∈ skip) || String.eqb name EmptyString
       || DOM.hasAttribute e "data-nosave"
    then mret tt
    else callback id name type).

Definition coerceToLimits (id : nat) (v : option value) : Proc Page value :=
  e ← element id;
  let value :=
    match v with
    | Some x => if ToBoolean x then x else VNum (DOM.valueAsNumber e)
    | None => VNum (DOM.valueAsNumber e)
    end in
  value ← (if ToBoolean (VStr (DOM.min e))
              && less_than value (VNum (parseFloat (DOM.min e)))
           then assign id (DOM.assign_value (VStr (DOM.min e))) ;;
                mret (VStr (DOM.min e))
           else mret value);
  value ← (if ToBoolean (VStr (DOM.max e))
              && less_than (VNum (parseFloat (DOM.max e))) value
           then assign id (DOM.assign_value (VStr (DOM.max e))) ;;
                mret (VStr (DOM.max e))
           else mret value);
  if isNaN value
  then assign id (DOM.assign_value (VNum (Int 0))) ;; mret (VNum (Int 0))
  else mret value.

(** [elementChanged(e)], for the element itself or for an event on it. *)
Definition elementChanged (id : nat) : Proc Page unit :=
  e ← element id;
  let type := toLowerCase (DOM.type e) in
  let name := DOM.name e in
  value ← (if bool_decide (type ∈ checkable) then
             if bool_decide (type ∈ radio) then getRadioValue id
             else mret (VBool (DOM.checked e))
           else if bool_decide (type ∈ numeric) then
             coerceToLimits id (Some (VNum (DOM.valueAsNumber e)))
           else mret (VStr (DOM.value e)));
  filter ← getTransformFunction e "savefunc";
  value ← apply_filter filter value;
  on_storage (Storage.set WebStorage.standard JSON.stringify name value).

Definition updateElement (id : nat) (name type : option string)
    : Proc Page unit :=
  e ← element id;
  let name := or_else name (DOM.name e) in
  let type := or_else type (toLowerCase (DOM.type e)) in
  value ← on_storage (Storage.get WebStorage.standard JSON.parse name);
  filter ← getTransformFunction e "loadfunc";
  value ← apply_filter filter value;
  if bool_decide (type ∈ checkable) then
    if bool_decide (type ∈ radio)
    then assign id (DOM.assign_checked (VBool (equals (VStr (DOM.value e)) value)))
    else assign id (DOM.assign_checked value)
  else
    assign id (DOM.assign_value value) ;;
    if bool_decide (type ∈ numeric) then
      coerced ← coerceToLimits id None;
      if negb (equals coerced value) then elementChanged id else mret tt
    else mret tt.

(** Adding the same listener to the same element again has no effect. *)
Definition setupElement (id : nat) (name type : option string)
    : Proc Page unit :=
  e ← element id;
  let type := or_else type (toLowerCase (DOM.type e)) in
  let name := or_else name (DOM.name e) in
  modify (λ pg, if bool_decide (id ∈ change pg) then pg
                else set_change (change pg ++ [id]) pg) ;;
  updateElement id (Some name) (Some type).

Definition addResetButton (button id : nat) : Proc Page unit :=
  modify (λ pg, set_click (click pg ++ [(button, id)]) pg).

Definition getElementsByName (name : string) (doc : list DOM.Element)
    : list nat :=
  DOM.select (λ x, bool_decide (DOM.getAttribute x "name" = Some name)) doc.

Definition setupAllResetButtons : Proc Page unit :=
  doc ← gets document;
  let resets := DOM.select (λ x, DOM.hasAttribute x "data-resets") doc in
  forEach resets (λ r,
    b ← element r;
    let elements :=
      getElementsByName (default EmptyString (DOM.getAttribute b "data-resets")) doc in
    forEach elements (λ id, addResetButton r id)).

Definition onDOMContentLoaded : Proc Page unit :=
  doc ← gets document;
  modify (set_formElements (DOM.select isInput doc)) ;;
  walkElements (λ id name type, setupElement id (Some name) (Some type)) ;;
  setupAllResetButtons ;;
  modify (set_initialized true).

(** [OptionsPage.init(settingstorage)] *)
Definition init (settingstorage : option Storage.SettingStorage)
    : Proc Page unit :=
  match settingstorage with
  | Some o => modify (set_storage o)
  | None =>
      σ ← gets preferences;
      match Storage.new WebStorage.standard JSON.parse None None σ with
      | Normal o => modify (set_storage o)
      | Throw err => throw err
      end
  end ;;
  modify (set_loading true).

(** The argument of [update] and [save]: the name of a setting, an element,
    or a list of elements. *)
Inductive target :=
| Name (name : string)
| Element (id : nat)
| Elements (ids : list nat).

(** [if (element.length === undefined) f(element); else for (...) f(element[i])]
    for one element: a [select] has a [length] and is taken for the list of
    its options, and an option has no [type] to read. *)
Definition one_or_each (id : nat) (f : nat → Proc Page unit) : Proc Page unit :=
  e ← element id;
  match DOM.length e with
  | None => f id
  | Some O => mret tt
  | Some (S _) => throw TypeError
  end.

(** [document.querySelector('[name="' + name + '"]')]: the first element
    with this name, [null] when there is none; a name with a quote, a
    backslash or a line break does not give a selector of this shape. *)
Definition selector_string (name : string) : bool :=
  forallb (λ c, negb (N.eqb (code c) 34 || N.eqb (code c) 92
                      || N.eqb (code c) 10 || N.eqb (code c) 13
                      || N.eqb (code c) 12))
    (list_ascii_of_string name).

Definition querySelector_name (name : string) : Proc Page (option nat) :=
  if selector_string name then
    doc ← gets document;
    mret (head (getElementsByName name doc))
  else throw (Error "SYNTAX_ERR").

(** [OptionsPage.update(element)] *)
Definition update (t : target) : Proc Page unit :=
  match t with
  | Name name =>
      if String.eqb name EmptyString then mret tt
      else
        doc ← gets document;
        forEach (getElementsByName name doc) (λ id, updateElement id None None)
  | Element id => one_or_each id (λ id, updateElement id None None)
  | Elements ids => forEach ids (λ id, updateElement id None None)
  end.

(** [OptionsPage.save(element)] *)
Definition save (t : target) : Proc Page unit :=
  match t with
  | Name name =>
      if String.eqb name EmptyString then mret tt
      else
        found ← querySelector_name name;
        match found with
        | Some id => one_or_each id elementChanged
        | None => throw TypeError
        end
  | Element id => one_or_each id elementChanged
  | Elements ids => forEach ids elementChanged
  end.

(** The events of the page. *)
Inductive event :=
| DOMContentLoaded
| Change (id : nat)
| Click (id : nat).

Definition dispatch (ev : event) : Proc Page unit :=
  match ev with
  | DOMContentLoaded =>
      l ← gets loading;
      if (l : bool) then onDOMContentLoaded else mret tt
  | Change id =>
      ids ← gets change;
      if bool_decide (id ∈ ids) then elementChanged id else mret tt
  | Click button =>
      ps ← gets click;
      listeners (filter (λ p, p.1 = button) ps) (λ p,
        e ← element p.2;
        on_storage (Storage.reset WebStorage.standard JSON.stringify (DOM.name e)) ;;
        updateElement p.2 None None)
  end.

(** [findResetButton(name)]: the first element whose [data-resets]
    attribute is [name], [null] when there is none; the error of a rejected
    selector is caught and gives [null] (see [querySelector_name] for the
    names that do not give a selector of this shape). *)
Definition findResetButton (name : string) : Proc Page (option nat) :=
  if selector_string name then
    doc ← gets document;
    mret (head (DOM.select
                  (λ x, bool_decide (DOM.getAttribute x "data-resets" = Some name))
                  doc))
  else mret None.

(** [OptionsPage.addInput(element, resetbutton)] *)
Definition addInput (id : nat) (resetbutton : option nat) : Proc Page unit :=
  i ← gets initialized;
  if negb i then
    throw (Error "OptionsPage.addInput cannot be called before the DOMContentLoaded event has fired.")
  else
    e ← element id;
    if negb (String.eqb (DOM.tagName e) EmptyString) && isInput e then
      setupElement id None None ;;
      e ← element id;
      reset ← match resetbutton with
              | Some b => mret (Some b)
              | None => findResetButton (DOM.name e)
              end;
      match reset with
      | Some b => addResetButton b id
      | None => mret tt
      end
    else mret tt.

(** *** What the functions of the page leave alone *)

(** The element [e'] is [e] but for what it shows: its [value] and whether
    it is [checked]. *)
Definition same_control (e e' : DOM.Element) : Prop :=
  DOM.tagName e' = DOM.tagName e ∧ DOM.type e' = DOM.type e
  ∧ DOM.attributes e' = DOM.attributes e ∧ DOM.form e' = DOM.form e
  ∧ DOM.options e' = DOM.options e.

(** The page [pg'] has the elements of [pg], which differ at most in what
    they show, the same global scope and the same [SettingStorage]; and the
    items of its web storage differ from those of [pg] at most at the keys
    of the names of the elements. *)
Definition same_page (pg pg' : Page) : Prop :=
  Forall2 same_control (document pg) (document pg')
  ∧ window pg' = window pg ∧ storage pg' = storage pg
  ∧ loading pg' = loading pg
  ∧ ∀ k, (∀ o e, storage pg = Some o → e ∈ document pg →
                 k ≠ Storage.prefix o +:+ DOM.name e) →
         preferences pg' !! k = preferences pg !! k.

(** The variables of [OptionsPage] and the listeners are those of [pg]. *)
Definition same_setup (pg pg' : Page) : Prop :=
  initialized pg' = initialized pg ∧ formElements pg' = formElements pg
  ∧ change pg' = change pg ∧ click pg' = click pg.

(** The procedure [m] keeps the invariant [I], however it ends. *)
Definition keeps {A} (I : Page → Prop) (m : Proc Page A) : Prop :=
  ∀ pg, I pg → I (m pg).2.

(** The elements that [walkElements] passes to its callback when the form
    elements are those that [onDOMContentLoaded] collects. *)
Definition walked (e : DOM.Element) : bool :=
  isInput e
  && negb (bool_decide (toLowerCase (DOM.type e) ∈ skip)
           || String.eqb (DOM.name e) EmptyString
           || DOM.hasAttribute e "data-nosave").

End OptionsPage.

(** ** default_settings.js *)

Module DefaultSettings.

Definition CRLF : string := String "013"%char (String "010"%char EmptyString).

(** The defaults passed to [new SettingStorage([...])]. *)
Definition settings : list (string * value) :=
  [ ("checkbox", VBool true);
    ("textbox", VStr "foo");
    ("numeric", VNum (Int 42));
    ("range", VNum (Int 0));
    ("color", VStr "#ff0000");
    ("textarea", VStr ("This is a <textarea>." +:+ CRLF +:+ "It has multiple lines."));
    ("transform", VArr [VStr "foo"; VStr "bar"; VStr "baz"]);
    ("radio", VStr "one");
    ("formradio", VStr "two");
    ("select", VStr "bar");
    ("date", VStr "1970-01-01");
    ("dynamic1", VStr "dynamic textbox");
    ("dynamic2", VStr "4") ].

End DefaultSettings.

(** ** A page to run the code on *)

Module Sample.

(** The object that [new SettingStorage(settings)] returns over an empty
    storage, and the one it returns once the init flag is set. *)
Definition first_run : Storage.SettingStorage :=
  Storage.configured (Some DefaultSettings.settings) None true.
Definition later_run : Storage.SettingStorage :=
  Storage.configured (Some DefaultSettings.settings) None false.

(** [<input type="number" name="numeric" min="0" max="10">] *)
Definition numeric_input : DOM.Element :=
  DOM.mkElement "INPUT" "number" EmptyString false
    (<["name" := "numeric"]> (<["min" := "0"]> (<["max" := "10"]> ∅)))
    None None.

(** [<input type="text" name="textbox">] with the given further attributes. *)
Definition textbox_input (more : gmap string string) : DOM.Element :=
  DOM.mkElement "INPUT" "text" EmptyString false
    (<["name" := "textbox"]> more) None None.

(** The page before [OptionsPage.init]: one control, the given global scope
    and web storage. *)
Definition fresh (e : DOM.Element) (w : gmap string OptionsPage.Global)
    (σ : gmap string string) : OptionsPage.Page :=
  OptionsPage.mkPage [e] w σ None false [] false [] [].

(** [OptionsPage.init(storage)] followed by the DOMContentLoaded event. *)
Definition load : Proc OptionsPage.Page unit :=
  OptionsPage.init (Some later_run) ;;
  OptionsPage.dispatch OptionsPage.DOMContentLoaded.

End Sample.

(** * Properties of storage.js *)

Section StorageProperties.

Import Storage.

Variable web : WebStorage.Platform.
Variable JSON_stringify : value → string.
Variable JSON_parse : string → option value.

Local Abbreviation member := (WebStorage.member web).
Local Abbreviation read := (WebStorage.read web).
Local Abbreviation write := (WebStorage.write web).
Local Abbreviation set_storage := (Storage.set_storage web).
Local Abbreviation get := (Storage.get web JSON_parse).
Local Abbreviation set := (Storage.set web JSON_stringify).
Local Abbreviation getInit := (Storage.getInit web JSON_parse).
Local Abbreviation setInit := (Storage.setInit web JSON_stringify).
Local Abbreviation init_private := (Storage.init_private web JSON_parse).
Local Abbreviation new := (Storage.new web JSON_parse).
Local Abbreviation fillDefaults := (Storage.fillDefaults web JSON_stringify).
Local Abbreviation init := (Storage.init web JSON_stringify).
Local Abbreviation reset := (Storage.reset web JSON_stringify).
Local Abbreviation reset_loop := (Storage.reset_loop web JSON_stringify).
Local Abbreviation resetAll := (Storage.resetAll web JSON_stringify).
Local Abbreviation getAll := (Storage.getAll web JSON_parse).
Local Abbreviation getAll_loop := (Storage.getAll_loop web JSON_parse).
Local Abbreviation setAll := (Storage.setAll web JSON_stringify).
Local Abbreviation serializable := (Storage.serializable JSON_stringify JSON_parse).
Local Abbreviation run_call := (Storage.run_call web JSON_stringify JSON_parse).
Local Abbreviation exec := (Storage.exec web JSON_stringify JSON_parse).

Ltac run :=
  unfold Storage.getInit, Storage.setInit, Storage.get, Storage.set,
    Storage.field, Storage.storage_read, Storage.storage_write,
    when, gets, modify, throw, mbind, mret, Proc_bind, Proc_ret; simpl.

(** *** Reading and assigning the properties of the storage object *)

Lemma read_item (items : gmap string string) (k : string) :
  member k = false → read items k = items !! k.
Proof. intros H. unfold WebStorage.read. by rewrite H. Qed.

Lemma read_undefined (items : gmap string string) (k : string) :
  read items k = None ↔ member k = false ∧ items !! k = None.
Proof.
  unfold WebStorage.read. destruct (member k); [|by intuition].
  split; [done | by intros [? _]].
Qed.

Lemma write_item (k v : string) (items : gmap string string) :
  member k = false → write k v items = <[k := v]> items.
Proof. intros H. unfold WebStorage.write. by rewrite H. Qed.

Lemma lookup_write_ne (k k' v : string) (items : gmap string string) :
  k ≠ k' → write k v items !! k' = items !! k'.
Proof.
  intros H. unfold WebStorage.write.
  destruct (_ && _); [done | by rewrite lookup_insert_ne].
Qed.

Lemma read_write (k v : string) (items : gmap string string) :
  member k = false → read (write k v items) k = Some v.
Proof.
  intros H. rewrite read_item, write_item by done. apply lookup_insert_eq.
Qed.

(** *** The methods, run *)

Lemma get_run (name : string) (s : state) :
  get name s =
    (match read (storage s) (prefix (this s) +:+ name) with
     | None => Normal VNull
     | Some text =>
         match JSON_parse text with
         | Some v => Normal v
         | None => Throw SyntaxError
         end
     end, s).
Proof.
  run. destruct (read (storage s) _) as [text|]; [|done].
  by destruct (JSON_parse text).
Qed.

Lemma set_run (name : string) (v : value) (s : state) :
  set name v s =
    (Normal tt, set_storage (prefix (this s) +:+ name) (JSON_stringify v) s).
Proof. reflexivity. Qed.

Lemma getInit_run (s : state) :
  getInit s =
    match read (storage s) (initKey (this s)) with
    | None => (Normal VNull, s)
    | Some text =>
        match JSON_parse text with
        | Some v => (Normal v, s)
        | None =>
            (Throw SyntaxError,
             if globalInit (this s) then set_prefix EmptyString s else s)
        end
    end.
Proof.
  destruct s as [[ds p n g f] σ]. unfold initKey. destruct g; run.
  - change (EmptyString +:+ n) with n.
    destruct (read σ n) as [text|]; [|done]. by destruct (JSON_parse text).
  - destruct (read σ (p +:+ n)) as [text|]; [|done].
    by destruct (JSON_parse text).
Qed.

Lemma setInit_run (v : value) (s : state) :
  setInit v s = (Normal tt, set_storage (initKey (this s)) (JSON_stringify v) s).
Proof. destruct s as [[ds p n g f] σ]. unfold initKey. destruct g; by run. Qed.

Lemma init_private_run (defs : option (list (string * value)))
    (options : option Options) (σ : gmap string string) :
  init_private defs options (mkState blank σ) =
    match read σ (initKey (configured defs options false)) with
    | None => (Normal tt, mkState (configured defs options true) σ)
    | Some text =>
        match JSON_parse text with
        | Some v =>
            (Normal tt,
             mkState (configured defs options (negb (ToBoolean v))) σ)
        | None =>
            (Throw SyntaxError,
             let o := configured defs options false in
             if globalInit o then set_prefix EmptyString (mkState o σ)
             else mkState o σ)
        end
    end.
Proof.
  unfold Storage.init_private.
  assert (E : ∀ k : unit → Proc state unit,
    (match defs with Some d => modify (set_defaults d) | None => mret tt end
       ≫= k) (mkState blank σ)
    = k tt (mkState (configured defs None false) σ)).
  { intros k. by destruct defs. }
  rewrite E. clear E.
  assert (E : ∀ k : unit → Proc state unit,
    (match options with
     | Some o =>
         match opt_prefix o with
         | Some p => modify (set_prefix p) | None => mret tt end ;;
         match opt_initSetting o with
         | Some n => modify (set_initSetting n) | None => mret tt end ;;
         match opt_globalInit o with
         | Some g => modify (set_globalInit g) | None => mret tt end
     | None => mret tt
     end ≫= k) (mkState (configured defs None false) σ)
    = k tt (mkState (configured defs options false) σ)).
  { intros k. destruct options as [[[p|] [n|] [g|]]|]; reflexivity. }
  rewrite E. clear E.
  unfold mbind at 1, Proc_bind at 1. rewrite getInit_run. simpl this. simpl storage.
  destruct (read σ _) as [text|]; [|reflexivity].
  destruct (JSON_parse text) as [v|]; [|reflexivity].
  by destruct (ToBoolean v).
Qed.

Lemma new_run (defs : option (list (string * value)))
    (options : option Options) (σ : gmap string string) :
  new defs options σ =
    match read σ (initKey (configured defs options false)) with
    | None => Normal (configured defs options true)
    | Some text =>
        match JSON_parse text with
        | Some v => Normal (configured defs options (negb (ToBoolean v)))
        | None => Throw SyntaxError
        end
    end.
Proof.
  unfold Storage.new. rewrite init_private_run.
  destruct (read σ _) as [text|]; [|reflexivity].
  by destruct (JSON_parse text).
Qed.

(** *** Declared defaults *)

Lemma declared_default_elem (ds : list (string * value)) name d :
  declared_default ds name = Some d → (name, d) ∈ ds.
Proof.
  induction ds as [|[n v] ds IH]; simpl; [done|].
  destruct (String.eqb_spec n name) as [->|Hne].
  - intros [= ->]. left.
  - intros H. right. by apply IH.
Qed.

Lemma declared_default_None (ds : list (string * value)) name :
  declared_default ds name = None ↔ name ∉ ds.*1.
Proof.
  induction ds as [|[n v] ds IH]; simpl.
  - split; [intros _; apply not_elem_of_nil | done].
  - rewrite not_elem_of_cons. destruct (String.eqb_spec n name) as [->|Hne].
    + split; [done | by intros [? _]].
    + rewrite IH. split; [by intros ? | by intros [_ ?]].
Qed.

Lemma declared_default_unique (ds : list (string * value)) name d :
  NoDup ds.*1 → (name, d) ∈ ds → declared_default ds name = Some d.
Proof.
  induction ds as [|[n v] ds IH]; simpl.
  - intros _ H. by apply elem_of_nil in H.
  - rewrite NoDup_cons. intros [Hn Hnd] [[= -> ->]|Hin]%elem_of_cons.
    + by rewrite String.eqb_refl.
    + destruct (String.eqb_spec n name) as [->|Hne]; [|by apply IH].
      destruct Hn. apply list_elem_of_fmap. by exists (name, d).
Qed.

Lemma declared_default_app (ds1 ds2 : list (string * value)) name :
  declared_default (ds1 ++ ds2) name =
    match declared_default ds1 name with
    | Some d => Some d
    | None => declared_default ds2 name
    end.
Proof.
  induction ds1 as [|[n v] ds1 IH]; simpl; [done|].
  by destruct (String.eqb n name).
Qed.

Lemma declared_default_reverse (ds : list (string * value)) name d :
  NoDup ds.*1 → (name, d) ∈ ds → declared_default (reverse ds) name = Some d.
Proof.
  intros Hnd Hin. apply declared_default_unique.
  - by rewrite fmap_reverse, reverse_Permutation.
  - by apply elem_of_reverse.
Qed.

(** *** The loops *)

Lemma forEach_total {S A} (body : A → Proc S unit) (step : A → S → S) :
  (∀ x s, body x s = (Normal tt, step x s)) →
  ∀ xs s, forEach xs body s = (Normal tt, foldl (λ s x, step x s) s xs).
Proof.
  intros Hbody xs. induction xs as [|x xs IH]; intros s; [done|].
  cbn [forEach foldl]. unfold mbind, Proc_bind. by rewrite Hbody, IH.
Qed.

(** The loop of [fillDefaults], as a fold over the declared defaults. *)
Local Abbreviation fill_fold start ds :=
  (foldl (λ (s : state) (d : string * value),
     match read (storage s) (prefix (this s) +:+ d.1) with
     | None => set_storage (prefix (this s) +:+ d.1) (JSON_stringify d.2) s
     | Some _ => s
     end) start ds).

Lemma fillDefaults_fold (s : state) :
  fillDefaults s =
    (Normal tt, fill_fold s (defaults (this s))).
Proof.
  unfold Storage.fillDefaults, Storage.field, gets.
  unfold mbind at 1, Proc_bind at 1.
  apply (forEach_total _ (λ d s,
    match read (storage s) (prefix (this s) +:+ d.1) with
    | None => set_storage (prefix (this s) +:+ d.1) (JSON_stringify d.2) s
    | Some _ => s
    end)). intros d s'.
  unfold Storage.storage_read, gets, mbind, Proc_bind.
  destruct (read (storage s') _); [done|]. simpl. by rewrite set_run.
Qed.

Lemma fill_fold_spec (ds : list (string * value)) (s : state) :
  let s' := fill_fold s ds in
  this s' = this s
  ∧ (∀ k text, storage s !! k = Some text → storage s' !! k = Some text)
  ∧ (∀ name, member (prefix (this s) +:+ name) = false →
       storage s !! (prefix (this s) +:+ name) = None →
       storage s' !! (prefix (this s) +:+ name)
       = JSON_stringify <$> declared_default ds name)
  ∧ (∀ k, member k = true → storage s' !! k = storage s !! k)
  ∧ (∀ k, (∀ name, name ∈ ds.*1 → k ≠ prefix (this s) +:+ name) →
       storage s' !! k = storage s !! k).
Proof.
  revert s. induction ds as [|[n v] ds IH]; intros s; cbn zeta.
  - cbn [foldl]. repeat split; try done.
  - cbn [foldl fst snd].
    destruct (read (storage s) (prefix (this s) +:+ n)) as [text|] eqn:E.
    + destruct (IH s) as (H0 & H1 & H2 & H3 & H4). split; [done|].
      split; [done|]. split; [|split; [done|]].
      * intros name Hm Hn. cbn [declared_default fst snd].
        destruct (String.eqb_spec n name) as [->|Hne].
        { rewrite read_item in E by done. congruence. }
        by apply H2.
      * intros k Hk. apply H4. intros name Hin. apply Hk.
        rewrite fmap_cons. by right.
    + apply read_undefined in E as [Hm E].
      destruct (IH (set_storage (prefix (this s) +:+ n) (JSON_stringify v) s))
        as (H0 & H1 & H2 & H3 & H4).
      unfold Storage.set_storage in H0, H1, H2, H3, H4 |- *.
      cbn [this storage] in H0, H1, H2, H3, H4.
      rewrite (write_item _ _ _ Hm) in H0, H1, H2, H3, H4 |- *.
      split; [done|]. split; [|split; [|split]].
      * intros k text Hk. apply H1.
        rewrite lookup_insert_ne; [done|]. intros <-. congruence.
      * intros name Hmn Hn. cbn [declared_default fst snd].
        destruct (String.eqb_spec n name) as [->|Hne].
        { apply H1. by rewrite lookup_insert_eq. }
        apply H2; [done|]. rewrite lookup_insert_ne; [done|].
        intros Heq. by apply (inj _) in Heq.
      * intros k Hk. rewrite (H3 k Hk). rewrite lookup_insert_ne; [done|].
        intros <-. congruence.
      * intros k Hk. rewrite H4.
        { rewrite lookup_insert_ne; [done|]. intros <-.
          apply (Hk n); [|done]. rewrite fmap_cons. by left. }
        intros name Hin. apply Hk. rewrite fmap_cons. by right.
Qed.

(** The loop of [resetAll] and of [setAll], as a fold. *)
Local Abbreviation set_fold start ds :=
  (foldl (λ (s : state) (d : string * value),
     set_storage (prefix (this s) +:+ d.1) (JSON_stringify d.2) s) start ds).

Lemma resetAll_fold (s : state) :
  resetAll s = (Normal tt, set_fold s (defaults (this s))).
Proof.
  unfold Storage.resetAll, Storage.field, gets.
  unfold mbind at 1, Proc_bind at 1.
  apply (forEach_total _ (λ d s,
    set_storage (prefix (this s) +:+ d.1) (JSON_stringify d.2) s)).
  intros d s'. apply set_run.
Qed.

Lemma setAll_fold (data : list (string * value)) (s : state) :
  setAll data s = (Normal tt, set_fold s data).
Proof.
  unfold Storage.setAll.
  apply (forEach_total _ (λ d s,
    set_storage (prefix (this s) +:+ d.1) (JSON_stringify d.2) s)).
  intros d s'. apply set_run.
Qed.

Lemma set_fold_spec (ds : list (string * value)) (s : state) :
  let s' := set_fold s ds in
  this s' = this s
  ∧ (∀ name, member (prefix (this s) +:+ name) = false →
       storage s' !! (prefix (this s) +:+ name)
       = match declared_default (reverse ds) name with
         | Some d => Some (JSON_stringify d)
         | None => storage s !! (prefix (this s) +:+ name)
         end)
  ∧ (∀ k, (∀ name, name ∈ ds.*1 → k ≠ prefix (this s) +:+ name) →
       storage s' !! k = storage s !! k).
Proof.
  induction ds as [|[n v] ds IH] using rev_ind; cbn zeta.
  - cbn [foldl]. repeat split; done.
  - rewrite foldl_snoc, reverse_snoc. cbn zeta in IH.
    destruct IH as (H0 & H1 & H2).
    cbn [Storage.set_storage this storage fst snd declared_default].
    rewrite H0.
    split; [done|]. split.
    + intros name Hm. destruct (String.eqb_spec n name) as [->|Hne].
      * rewrite write_item by done. by rewrite lookup_insert_eq.
      * rewrite lookup_write_ne; [by apply H1|].
        intros Heq. by apply (inj _) in Heq.
    + intros k Hk. rewrite lookup_write_ne.
      * apply H2. intros name Hin. apply Hk.
        rewrite fmap_app. apply elem_of_app. by left.
      * intros <-. apply (Hk n); [|done].
        rewrite fmap_app. apply elem_of_app. right. by left.
Qed.

Lemma reset_run (name : string) (s : state) :
  reset name s =
    (Normal tt,
     set_storage (prefix (this s) +:+ name)
       (JSON_stringify (default VNull (declared_default (defaults (this s)) name)))
       s).
Proof.
  unfold Storage.reset, Storage.field, gets.
  unfold mbind at 1, Proc_bind at 1.
  generalize (defaults (this s)) as ds.
  induction ds as [|[n v] ds IH]; cbn [Storage.reset_loop declared_default fst snd].
  - apply set_run.
  - destruct (String.eqb n name); [apply set_run | apply IH].
Qed.

Lemma getAll_loop_state (ds : list (string * value)) (data : object)
    (s : state) :
  (getAll_loop ds data s).2 = s.
Proof.
  revert data. induction ds as [|[n v] ds IH]; intros data; [done|].
  cbn [Storage.getAll_loop fst]. unfold mbind, Proc_bind. rewrite get_run.
  destruct (read (storage s) _) as [text|]; [|apply IH].
  destruct (JSON_parse text); [apply IH | done].
Qed.


Lemma getAll_unfold (s : state) :
  getAll s = getAll_loop (defaults (this s)) empty_object s.
Proof. reflexivity. Qed.



Lemma init_run (s : state) :
  init s =
    (Normal tt,
     let s1 := fill_fold s (defaults (this s)) in
     if firstRun (this s1)
     then set_storage (initKey (this s1)) (JSON_stringify (VBool true)) s1
     else s1).
Proof.
  unfold Storage.init. unfold mbind at 1, Proc_bind at 1.
  rewrite fillDefaults_fold. unfold Storage.field, gets.
  unfold mbind, Proc_bind. cbn zeta.
  destruct (firstRun _); [apply setInit_run | done].
Qed.

(** *** What the calls leave alone *)


Lemma run_call_this (c : call) (s : state) : this (run_call c s).2 = this s.
Proof.
  destruct c; cbn [Storage.run_call].
  - rewrite init_run. cbn [snd].
    destruct (fill_fold_spec (defaults (this s)) s) as [H0 _]. cbn zeta in H0.
    by destruct (firstRun _).
  - by rewrite reset_run.
  - rewrite resetAll_fold. apply set_fold_spec.
  - rewrite fillDefaults_fold. apply fill_fold_spec.
  - unfold mbind, Proc_bind. rewrite get_run.
    destruct (read (storage s) _) as [text|]; [|done]. by destruct (JSON_parse text).
  - by rewrite set_run.
  - unfold mbind at 1, Proc_bind at 1. rewrite getAll_unfold.
    pose proof (getAll_loop_state (defaults (this s)) empty_object s) as H.
    destruct (getAll_loop _ _ _) as [[m|e] s']; simpl in *; by subst.
  - rewrite setAll_fold. apply set_fold_spec.
Qed.

Lemma exec_this (calls : list call) (s : state) : this (exec calls s) = this s.
Proof.
  revert s. induction calls as [|c calls IH]; intros s; [done|].
  unfold Storage.exec in *. cbn [foldl]. by rewrite IH, run_call_this.
Qed.

(** *** The claims about storage.js *)

Lemma set_get (name : string) (v : value) (s : state) :
  member (prefix (this s) +:+ name) = false → serializable v →
  ∃ s', set name v s = (Normal tt, s') ∧ get name s' = (Normal v, s').
Proof.
  intros Hm Hv. eexists. split; [apply set_run|].
  rewrite get_run. cbn [Storage.set_storage this storage].
  by rewrite read_write, Hv.
Qed.







Lemma initKey_configured (defs1 defs2 : option (list (string * value)))
    (options : option Options) (b1 b2 : bool) :
  initKey (configured defs1 options b1) = initKey (configured defs2 options b2).
Proof. reflexivity. Qed.


(** C4, as amended: [firstRun] is computed by the constructor, and is true
    exactly when the init flag read from the storage at that moment was
    absent or deserialized to a falsy value; no later call on the object,
    [init()] included, changes it, whatever the storage holds. *)
Theorem C4_firstRun_set_at_construction
    (defs : option (list (string * value))) (options : option Options)
    (σ : gmap string string) (o : SettingStorage)
    (calls : list call) (σ' : gmap string string) :
  new defs options σ = Normal o →
  (firstRun o = true ↔
     match read σ (initKey o) with
     | None => True
     | Some text => ∃ v, JSON_parse text = Some v ∧ ToBoolean v = false
     end)
  ∧ firstRun (this (exec calls (mkState o σ'))) = firstRun o.
Proof.
  intros Hnew. split; [|by rewrite exec_this].
  rewrite new_run in Hnew.
  destruct (read σ (initKey (configured defs options false))) as [text|] eqn:E.
  - destruct (JSON_parse text) as [v|] eqn:Ev; [|done].
    injection Hnew as <-.
    rewrite (initKey_configured _ defs _ _ false), E. cbn [firstRun].
    split.
    + intros Hf. exists v. split; [done|]. by destruct (ToBoolean v).
    + intros (v' & Hv' & Hf). rewrite Ev in Hv'. injection Hv' as ->.
      by rewrite Hf.
  - injection Hnew as <-.
    by rewrite (initKey_configured _ defs _ _ false), E.
Qed.

(** *** Further properties of storage.js *)



Lemma fill_fold_defined (ds : list (string * value)) (s : state) (name : string) :
  name ∈ ds.*1 →
  is_Some (read (storage (fill_fold s ds)) (prefix (this s) +:+ name)).
Proof.
  intros Hin.
  destruct (fill_fold_spec ds s) as (_ & H1 & H2 & _). cbn zeta in H1, H2.
  destruct (member (prefix (this s) +:+ name)) eqn:Hm.
  { unfold WebStorage.read at 1. rewrite Hm. by eexists. }
  rewrite read_item by done.
  destruct (storage s !! (prefix (this s) +:+ name)) as [text|] eqn:E.
  - exists text. by apply H1.
  - rewrite (H2 _ Hm E).
    destruct (declared_default ds name) as [d|] eqn:Ed; [by eexists|].
    by apply declared_default_None in Ed.
Qed.

Lemma fill_fold_full (ds : list (string * value)) (s : state) :
  (∀ name, name ∈ ds.*1 →
     is_Some (read (storage s) (prefix (this s) +:+ name))) →
  fill_fold s ds = s.
Proof.
  induction ds as [|[n v] ds IH]; intros Hall; [done|].
  cbn [foldl fst snd].
  destruct (Hall n) as [text ->]; [rewrite fmap_cons; by left|].
  apply IH. intros name Hin. apply Hall. rewrite fmap_cons. by right.
Qed.

Lemma read_defined_write (k k' v : string) (items : gmap string string) :
  is_Some (read items k') → is_Some (read (write k v items) k').
Proof.
  unfold WebStorage.read. destruct (member k'); [by eexists|].
  intros [text Ht]. unfold WebStorage.write.
  destruct (_ && _); [by eexists|].
  destruct (decide (k = k')) as [->|Hne].
  - rewrite lookup_insert_eq. by eexists.
  - rewrite lookup_insert_ne by done. by eexists.
Qed.

Lemma write_write (k v : string) (items : gmap string string) :
  write k v (write k v items) = write k v items.
Proof.
  unfold WebStorage.write. destruct (_ && _); [done|].
  by rewrite insert_insert_eq.
Qed.

Lemma init_spec (s : state) :
  ∃ s', init s = (Normal tt, s') ∧ this s' = this s
    ∧ (∀ k text, storage s !! k = Some text → k ≠ initKey (this s) →
         storage s' !! k = Some text)
    ∧ (∀ name, name ∈ (defaults (this s)).*1 →
         is_Some (read (storage s') (prefix (this s) +:+ name)))
    ∧ (firstRun (this s) = true → member (initKey (this s)) = false →
         storage s' !! initKey (this s) = Some (JSON_stringify (VBool true)))
    ∧ (firstRun (this s) = false →
         ∀ k text, storage s !! k = Some text → storage s' !! k = Some text).
Proof.
  eexists. split; [apply init_run|].
  destruct (fill_fold_spec (defaults (this s)) s) as (H0 & H1 & _).
  cbn zeta in H0, H1. cbn zeta. rewrite H0.
  destruct (firstRun (this s)) eqn:Hf; cbn [Storage.set_storage this storage].
  - split; [done|]. split; [|split; [|split; [|done]]].
    + intros k text Hk Hne. rewrite lookup_write_ne by done. by apply H1.
    + intros name Hin. apply read_defined_write. by apply fill_fold_defined.
    + intros _ Hm. rewrite write_item by done. by rewrite lookup_insert_eq.
  - split; [done|]. split; [|split; [|split; [done|]]].
    + intros k text Hk _. by apply H1.
    + intros name Hin. by apply fill_fold_defined.
    + intros _ k text Hk. by apply H1.
Qed.


(** A second [init()] changes nothing: [init()] twice leaves the object and
    the storage as [init()] once does. *)
Theorem init_idempotent (s : state) : (init ;; init) s = init s.
Proof.
  unfold mbind, Proc_bind. rewrite init_run. cbn zeta.
  destruct (fill_fold_spec (defaults (this s)) s) as (H0 & _).
  cbn zeta in H0.
  set (s1 := fill_fold s (defaults (this s))) in *.
  assert (∀ name, name ∈ (defaults (this s1)).*1 →
            is_Some (read (storage s1) (prefix (this s1) +:+ name))) as Hall.
  { intros name Hin. rewrite H0 in *. by apply fill_fold_defined. }
  rewrite init_run. cbn zeta.
  destruct (firstRun (this s1)) eqn:Hf.
  - cbn [Storage.set_storage this]. rewrite fill_fold_full.
    + cbn [this storage Storage.set_storage]. rewrite Hf.
      unfold Storage.set_storage. cbn [this storage].
      by rewrite write_write.
    + intros name Hin. cbn [this storage]. apply read_defined_write.
      by apply Hall.
  - by rewrite (fill_fold_full _ _ Hall), Hf.
Qed.

(** When a name is declared more than once, [reset(name)] restores the
    default of the first pair that declares it and [resetAll()] the default
    of the last one, for a name whose key is not the name of a member of the
    storage object.  [resetAll()] leaves alone every key that is not the key
    of a declared name. *)
Theorem reset_first_resetAll_last (name : string) (s : state) :
  member (prefix (this s) +:+ name) = false →
  (∀ d, declared_default (defaults (this s)) name = Some d → serializable d →
        ∃ s', reset name s = (Normal tt, s') ∧ get name s' = (Normal d, s'))
  ∧ (∀ d, declared_default (reverse (defaults (this s))) name = Some d →
          serializable d →
          ∃ s', resetAll s = (Normal tt, s') ∧ get name s' = (Normal d, s'))
  ∧ (∃ s', resetAll s = (Normal tt, s') ∧ this s' = this s
       ∧ ∀ k, (∀ n, n ∈ (defaults (this s)).*1 → k ≠ prefix (this s) +:+ n) →
              storage s' !! k = storage s !! k).
Proof.
  intros Hm.
  destruct (set_fold_spec (defaults (this s)) s) as (H0 & H1 & H2).
  cbn zeta in H0, H1, H2. split; [|split].
  - intros d Hd Hser. eexists. split; [apply reset_run|].
    rewrite Hd. cbn [default]. rewrite get_run.
    cbn [Storage.set_storage this storage]. by rewrite read_write, Hser.
  - intros d Hd Hser. eexists. split; [apply resetAll_fold|].
    by rewrite get_run, H0, read_item, H1, Hd, Hser.
  - eexists. split; [apply resetAll_fold|]. by split.
Qed.

(** [setAll(data)], for an object [data] (whose property names are
    distinct) with serializable values: afterwards [get] returns for each
    name of [data] whose key is not the name of a member of the storage
    object the value [data] has for it, and every key that is not the key of
    a name of [data] is left as it is. *)
Theorem setAll_then_get (data : list (string * value)) (s : state) :
  NoDup data.*1 → (∀ d, d ∈ data → serializable d.2) →
  ∃ s', setAll data s = (Normal tt, s') ∧ this s' = this s
    ∧ (∀ n v, (n, v) ∈ data → member (prefix (this s) +:+ n) = false →
         get n s' = (Normal v, s'))
    ∧ (∀ k, (∀ n, n ∈ data.*1 → k ≠ prefix (this s) +:+ n) →
            storage s' !! k = storage s !! k).
Proof.
  intros Hnd Hser.
  destruct (set_fold_spec data s) as (H0 & H1 & H2). cbn zeta in H0, H1, H2.
  eexists. split; [apply setAll_fold|]. split; [done|]. split; [|done].
  intros n v Hin Hm. rewrite get_run, H0, read_item, H1 by done.
  rewrite (declared_default_reverse _ _ _ Hnd Hin).
  by rewrite (Hser _ Hin).
Qed.




(** The constructor throws exactly when the init flag reads as a string that
    [JSON.parse] rejects, and then the error is the [SyntaxError] of
    [JSON.parse]; otherwise it returns an object with the given defaults and
    options, and the empty prefix, [__initialized] and [false] for the
    options that are not given.  It does not write to the storage. *)
Theorem new_throws_iff_flag_malformed
    (defs : option (list (string * value))) (options : option Options)
    (σ : gmap string string) :
  (new defs options σ = Throw SyntaxError
   ↔ ∃ text, read σ (initKey (configured defs options false)) = Some text
             ∧ JSON_parse text = None)
  ∧ (∀ e, new defs options σ = Throw e → e = SyntaxError)
  ∧ (∀ o, new defs options σ = Normal o →
          o = configured defs options (firstRun o))
  ∧ storage (init_private defs options (mkState blank σ)).2 = σ.
Proof.
  rewrite new_run, init_private_run.
  destruct (read σ (initKey (configured defs options false))) as [text|] eqn:E.
  - destruct (JSON_parse text) as [v|] eqn:Ev.
    + split; [|split; [|split]]; try done.
      * split; [done|]. intros (t & [= <-] & Ht). congruence.
      * by intros o [= <-].
    + split; [|split; [|split]]; try done.
      * split; [|done]. intros _. by exists text.
      * by intros e [= <-].
      * cbn zeta. by destruct (globalInit _).
  - split; [|split; [|split]]; try done.
    + split; [done|]. by intros (t & ? & _).
    + by intros o [= <-].
Qed.

(** With [globalInit], the init flag is shared by the objects of every
    prefix: once [init()] has run on a first-run object built with
    [globalInit] and the flag name [n] (not the name of a member of the
    storage object), any object built afterwards with [globalInit] and [n],
    whatever its prefix and defaults, has [firstRun] false. *)
Theorem global_flag_shared (defs1 : option (list (string * value)))
    (p1 : option string) (n : string) (σ : gmap string string) :
  member n = false → serializable (VBool true) →
  let o1 := configured defs1 (Some (mkOptions p1 (Some n) (Some true))) true in
  ∃ s1, init (mkState o1 σ) = (Normal tt, s1)
    ∧ storage s1 !! n = Some (JSON_stringify (VBool true))
    ∧ ∀ defs2 p2, ∃ o2,
        new defs2 (Some (mkOptions p2 (Some n) (Some true))) (storage s1)
        = Normal o2
        ∧ firstRun o2 = false.
Proof.
  intros Hm Htrue o1.
  destruct (init_spec (mkState o1 σ)) as (s1 & Hinit & _ & _ & _ & Hflag & _).
  specialize (Hflag eq_refl Hm). change (initKey _) with n in Hflag.
  exists s1. split; [done|]. split; [done|].
  intros defs2 p2. eexists. split.
  - rewrite new_run. change (initKey _) with n.
    rewrite read_item, Hflag, Htrue by done. reflexivity.
  - reflexivity.
Qed.

End StorageProperties.

(** ** The claims as stated, at the names of members of the storage object

    The counterexamples run on the standard platform, with the reference
    codec. *)







(** On a platform that stores an item at the name of a member, the setting
    [length] reads as the number of items as well, which then counts the
    item stored under this name. *)
Lemma member_name_where_items_are_stored :
  let web := WebStorage.browser true in
  let s := Storage.mkState Sample.later_run ∅ in
  ∃ s', Storage.set web JSON.stringify "length" (VNum (Int 5)) s
        = (Normal tt, s')
    ∧ Storage.storage s' !! "length" = Some "5"
    ∧ Storage.get web JSON.parse "length" s' = (Normal (VNum (Int 1)), s').
Proof.
  eexists. split; [vm_compute; reflexivity|]. split; reflexivity.
Qed.

(** C4, as stated, fails: over a storage whose init flag is present and
    holds [false], the constructor returns an object with [firstRun] true. *)
Lemma C4_present_falsy_flag_counterexample :
  ∃ (σ : gmap string string) (o : Storage.SettingStorage),
    Storage.new WebStorage.standard JSON.parse None None σ = Normal o
    ∧ σ !! Storage.initKey o = Some "false"
    ∧ Storage.firstRun o = true.
Proof.
  exists {["__initialized" := "false"]}.
  exists (Storage.configured None None true).
  split; [|split]; reflexivity.
Qed.

(** ** The claims about storage.js on the settings of default_settings.js *)










Lemma C4_firstRun_set_at_construction_witness :
  let σ : gmap string string := {["__initialized" := "false"]} in
  let o := Sample.first_run in
  (Storage.firstRun o = true ↔
     match WebStorage.read WebStorage.standard σ (Storage.initKey o) with
     | None => True
     | Some text => ∃ v, JSON.parse text = Some v ∧ ToBoolean v = false
     end)
  ∧ Storage.firstRun
      (Storage.this
         (Storage.exec WebStorage.standard JSON.stringify JSON.parse
            [Storage.CallInit; Storage.CallSet "__initialized" (VBool false);
             Storage.CallResetAll]
            (Storage.mkState o σ)))
    = Storage.firstRun o.
Proof.
  apply (C4_firstRun_set_at_construction WebStorage.standard JSON.stringify
           JSON.parse (Some DefaultSettings.settings) None).
  reflexivity.
Defined.




(** ** The further properties, on the settings of default_settings.js *)


Lemma reset_first_resetAll_last_witness :
  let web := WebStorage.standard in
  let o := Storage.configured
             (Some [("size", VNum (Int 1)); ("size", VNum (Int 2))]) None false in
  let s := Storage.mkState o ∅ in
  (∃ s', Storage.reset web JSON.stringify "size" s = (Normal tt, s')
         ∧ Storage.get web JSON.parse "size" s' = (Normal (VNum (Int 1)), s'))
  ∧ (∃ s', Storage.resetAll web JSON.stringify s = (Normal tt, s')
           ∧ Storage.get web JSON.parse "size" s' = (Normal (VNum (Int 2)), s')).
Proof.
  intros web o s.
  destruct (reset_first_resetAll_last web JSON.stringify JSON.parse "size" s
              eq_refl) as (Hfirst & Hlast & _).
  split.
  - apply (Hfirst (VNum (Int 1))); reflexivity.
  - apply (Hlast (VNum (Int 2))); reflexivity.
Defined.

Lemma setAll_then_get_witness :
  let web := WebStorage.standard in
  let s := Storage.mkState Sample.later_run {["textbox" := "{oops"]} in
  let data := [("textbox", VStr "bar"); ("extra", VBool false)] in
  ∃ s', Storage.setAll web JSON.stringify data s = (Normal tt, s')
    ∧ Storage.get web JSON.parse "textbox" s' = (Normal (VStr "bar"), s')
    ∧ Storage.get web JSON.parse "extra" s' = (Normal (VBool false), s').
Proof.
  intros web s data.
  destruct (setAll_then_get web JSON.stringify JSON.parse data s)
    as (s' & Hrun & _ & Hget & _).
  - compute_done.
  - intros d Hin.
    repeat (apply elem_of_cons in Hin as [->|Hin]; [reflexivity|]).
    by apply elem_of_nil in Hin.
  - exists s'. split; [exact Hrun|]. split.
    + apply Hget; [left | reflexivity].
    + apply Hget; [right; left | reflexivity].
Defined.


Lemma global_flag_shared_witness :
  let web := WebStorage.standard in
  let o1 := Storage.configured (Some DefaultSettings.settings)
              (Some (Storage.mkOptions (Some "a_") (Some "ready") (Some true)))
              true in
  ∃ s1, Storage.init web JSON.stringify (Storage.mkState o1 ∅) = (Normal tt, s1)
    ∧ Storage.storage s1 !! "ready" = Some "true"
    ∧ ∃ o2, Storage.new web JSON.parse None
              (Some (Storage.mkOptions (Some "b_") (Some "ready") (Some true)))
              (Storage.storage s1) = Normal o2
        ∧ Storage.firstRun o2 = false.
Proof.
  intros web o1.
  destruct (global_flag_shared web JSON.stringify JSON.parse
              (Some DefaultSettings.settings) (Some "a_") "ready" ∅)
    as (s1 & Hinit & Hflag & Hnew); [reflexivity | reflexivity |].
  exists s1. split; [exact Hinit|]. split; [exact Hflag|].
  exact (Hnew None (Some "b_")).
Defined.

(** * Strings *)

Lemma append_cons (c : ascii) (s t : string) :
  String c s +:+ t = String c (s +:+ t).
Proof. reflexivity. Qed.

Lemma append_nil (t : string) : EmptyString +:+ t = t.
Proof. reflexivity. Qed.

Lemma append_assoc (a b c : string) : (a +:+ b) +:+ c = a +:+ b +:+ c.
Proof. induction a as [|x a IH]; [done|]. by rewrite !append_cons, IH. Qed.

Lemma append_empty (a : string) : a +:+ EmptyString = a.
Proof. induction a as [|x a IH]; [done|]. by rewrite append_cons, IH. Qed.

Lemma length_append (a b : string) :
  String.length (a +:+ b) = (String.length a + String.length b)%nat.
Proof. induction a as [|x a IH]; [done|]. rewrite append_cons. cbn. by rewrite IH. Qed.

(** * Integers and their numerals *)

Lemma no_digit_nil : JSON.no_digit EmptyString.
Proof. by intros acc. Qed.

Lemma no_digit_cons (c : ascii) (s : string) :
  digit_of c = None → JSON.no_digit (String c s).
Proof. intros H acc. cbn [digits]. by rewrite H. Qed.

Lemma digits_string_of_uint (d : Decimal.uint) (acc : Z) (rest : string) :
  JSON.no_digit rest →
  digits (NilEmpty.string_of_uint d +:+ rest) acc =
    (acc * 10 ^ Z.of_N (DecimalPos.Unsigned.usize d)
     + Z.of_N (DecimalPos.Unsigned.of_lu (Decimal.rev d)), rest).
Proof.
  intros Hrest. revert acc.
  induction d; intros acc; cbn [NilEmpty.string_of_uint];
    [ rewrite append_nil, Hrest; cbn; f_equal; lia | .. ];
    rewrite append_cons; cbn [digits];
    (change (digit_of _) with (Some 0) || change (digit_of _) with (Some 1)
     || change (digit_of _) with (Some 2) || change (digit_of _) with (Some 3)
     || change (digit_of _) with (Some 4) || change (digit_of _) with (Some 5)
     || change (digit_of _) with (Some 6) || change (digit_of _) with (Some 7)
     || change (digit_of _) with (Some 8) || change (digit_of _) with (Some 9));
    cbn iota;
    unfold Decimal.rev; cbn [Decimal.revapp];
    rewrite DecimalPos.Unsigned.of_lu_revapp;
    fold (Decimal.rev d); rewrite IHd; f_equal;
    cbn [DecimalPos.Unsigned.of_lu DecimalPos.Unsigned.usize];
    rewrite N2Z.inj_succ, Z.pow_succ_r by lia;
    rewrite !N2Z.inj_add, !N2Z.inj_mul, N2Z.inj_pow; cbn [Z.of_N]; lia.
Qed.

(** The decimal digits of a positive number, which do not begin with 0. *)
Lemma to_uint_leading_digit (p : positive) (l : Decimal.uint) :
  Pos.to_uint p ≠ Decimal.D0 l.
Proof.
  intros E.
  pose proof (DecimalPos.Unsigned.to_of (Pos.to_uint p)) as H.
  rewrite DecimalPos.Unsigned.of_to in H. cbn [N.to_uint] in H.
  rewrite E in H. unfold Decimal.unorm in H. cbn [Decimal.nzhead] in H.
  destruct (Decimal.nzhead l) eqn:Hl; try discriminate.
  - apply (DecimalPos.Unsigned.to_uint_nonzero p). by rewrite E, H.
  - injection H as H. rewrite <- H in Hl.
    by apply DecimalFacts.nzhead_nonzero in Hl.
Qed.

(** The numeral of a positive number: a digit from 1 to 9 and a string whose
    digits, read after it, give the number. *)
Lemma positive_numeral (p : positive) :
  ∃ (c : ascii) (d : Z) (s : string),
    NilZero.string_of_uint (Pos.to_uint p) = String c s
    ∧ digit_of c = Some d ∧ d ≠ 0
    ∧ ∀ rest, JSON.no_digit rest → digits (s +:+ rest) d = (Z.pos p, rest).
Proof.
  pose proof (DecimalPos.Unsigned.of_to p) as Hp.
  rewrite DecimalPos.Unsigned.of_uint_alt in Hp.
  pose proof (to_uint_leading_digit p) as Hz.
  pose proof (DecimalPos.Unsigned.to_uint_nonnil p) as Hnil.
  assert (Hd : ∀ rest, JSON.no_digit rest →
    digits (NilEmpty.string_of_uint (Pos.to_uint p) +:+ rest) 0
    = (Z.pos p, rest)).
  { intros rest Hrest. rewrite (digits_string_of_uint _ 0 rest Hrest), Hp.
    by rewrite Z.mul_0_l, Z.add_0_l. }
  unfold NilZero.string_of_uint.
  destruct (Pos.to_uint p) as [|l|l|l|l|l|l|l|l|l|l];
    [done | by destruct (Hz l) | ..];
    cbn [NilEmpty.string_of_uint] in *;
    eexists _, _, _; (split; [reflexivity|]);
    (split; [reflexivity|]); (split; [done|]);
    intros rest Hrest; specialize (Hd rest Hrest);
    rewrite append_cons in Hd; exact Hd.
Qed.

Lemma numeral_start_facts (c : ascii) :
  JSON.numeral_start c →
  JSON.is_ws c = false ∧ is_space c = false
  ∧ Ascii.eqb c "n" = false ∧ Ascii.eqb c "t" = false
  ∧ Ascii.eqb c "f" = false ∧ Ascii.eqb c JSON.dquote = false
  ∧ Ascii.eqb c "[" = false ∧ Ascii.eqb c "{" = false
  ∧ Ascii.eqb c "]" = false ∧ Ascii.eqb c "}" = false.
Proof.
  intros [->|[d Hd]]; [by vm_compute|].
  destruct c as [[] [] [] [] [] [] [] []]; vm_compute in Hd; try discriminate;
    by vm_compute.
Qed.

Lemma signed_decimal_digit (b : bool) (c : ascii) (s : string) :
  is_Some (digit_of c) →
  signed_decimal b (String c s) = decimal (String c s).
Proof.
  intros [d Hd].
  destruct c as [[] [] [] [] [] [] [] []]; vm_compute in Hd; try discriminate;
    reflexivity.
Qed.

Lemma digit_not_minus (c : ascii) :
  is_Some (digit_of c) → Ascii.eqb c "-" = false.
Proof.
  intros [d Hd].
  destruct c as [[] [] [] [] [] [] [] []]; vm_compute in Hd; try discriminate;
    reflexivity.
Qed.

(** What the readers of numerals make of the numeral of [z] followed by
    [rest]. *)
Lemma number_to_string_read (z : Z) :
  ∃ (c : ascii) (s : string),
    number_to_string (Int z) = String c s
    ∧ JSON.numeral_start c
    ∧ ∀ rest, JSON.no_digit rest →
        (∀ b, signed_decimal b (String c s +:+ rest) = Some (z, rest))
        ∧ (JSON.integral (z, rest) = Some (z, rest) →
           JSON.numeral (String c s +:+ rest) = Some (z, rest)).
Proof.
  unfold number_to_string, NilZero.string_of_int, Z.to_int.
  destruct z as [|p|p].
  - exists "0"%char, EmptyString. split; [reflexivity|].
    split; [right; by eexists|]. intros rest Hrest. split.
    + intros b. rewrite append_cons, append_nil.
      rewrite signed_decimal_digit by by eexists.
      cbn [decimal]. change (digit_of "0") with (Some 0). cbn iota.
      by rewrite Hrest.
    + intros Hint. rewrite append_cons, append_nil.
      unfold JSON.numeral. cbn [JSON.expect].
      change (Ascii.eqb "0" "-") with false. cbn iota.
      cbn [JSON.unsigned_integer]. change (digit_of "0") with (Some 0).
      cbn iota. cbn [mbind option_bind]. exact Hint.
  - destruct (positive_numeral p) as (c & d & s & E & Hc & Hd & Hs).
    exists c, s. split; [exact E|]. split; [right; by eexists|].
    intros rest Hrest. split.
    + intros b. rewrite append_cons.
      rewrite signed_decimal_digit by by eexists.
      cbn [decimal]. rewrite Hc. by rewrite (Hs rest Hrest).
    + intros Hint. rewrite append_cons. unfold JSON.numeral.
      cbn [JSON.expect]. rewrite digit_not_minus by by eexists.
      cbn [JSON.unsigned_integer]. rewrite Hc.
      destruct d; [done|..]; rewrite (Hs rest Hrest);
        cbn [mbind option_bind]; exact Hint.
  - destruct (positive_numeral p) as (c & d & s & E & Hc & Hd & Hs).
    exists "-"%char, (String c s). split; [by rewrite E|].
    split; [by left|]. intros rest Hrest. split.
    + intros b. rewrite !append_cons. cbn [signed_decimal decimal].
      rewrite Hc, (Hs rest Hrest). reflexivity.
    + intros Hint. rewrite !append_cons. unfold JSON.numeral.
      cbn [JSON.expect]. change (Ascii.eqb "-" "-") with true. cbn iota.
      cbn [JSON.unsigned_integer]. rewrite Hc.
      assert (JSON.integral (Z.pos p, rest) = Some (Z.pos p, rest)) as Hint'.
      { unfold JSON.integral in *. cbn [snd] in *.
        destruct rest; [done|]. by destruct (_ || _). }
      destruct d; [done|..]; rewrite (Hs rest Hrest);
        cbn [mbind option_bind]; rewrite Hint'; reflexivity.
Qed.

Lemma number_to_string_shape (z : Z) :
  ∃ c s, number_to_string (Int z) = String c s
    ∧ JSON.numeral_start c
    ∧ signed_decimal false (String c s) = Some (z, EmptyString).
Proof.
  destruct (number_to_string_read z) as (c & s & E & Hc & Hread).
  exists c, s. split; [exact E|]. split; [exact Hc|].
  destruct (Hread EmptyString no_digit_nil) as [Hs _].
  specialize (Hs false). by rewrite append_empty in Hs.
Qed.

Lemma digits_rest (s : string) (acc z : Z) :
  digits s acc = (z, EmptyString) → trim_right s = s.
Proof.
  revert acc. induction s as [|c s IH]; intros acc; [done|].
  cbn [digits trim_right]. destruct (digit_of c) as [d|] eqn:Hc; [|done].
  intros H. rewrite (IH _ H). destruct s; [|done].
  destruct (numeral_start_facts c) as (_ & -> & _); [right; by eexists | done].
Qed.

Lemma signed_decimal_head (b : bool) (c : ascii) (s : string) :
  JSON.numeral_start c →
  signed_decimal b (String c s) = signed_decimal false (String c s).
Proof.
  intros [->|Hd]; [reflexivity|]. by rewrite !signed_decimal_digit.
Qed.

Lemma decimal_trim (s : string) (z : Z) :
  decimal s = Some (z, EmptyString) → trim_right s = s.
Proof.
  destruct s as [|c s]; [done|]. cbn [decimal].
  destruct (digit_of c) as [d|] eqn:Hc; [|done]. intros [= H].
  cbn [trim_right]. rewrite (digits_rest _ _ _ H). destruct s; [|done].
  destruct (numeral_start_facts c) as (_ & -> & _); [right; by eexists | done].
Qed.

Lemma number_to_string_trim (z : Z) :
  trim (number_to_string (Int z)) = number_to_string (Int z).
Proof.
  destruct (number_to_string_shape z) as (c & s & E & Hc & Hz).
  rewrite E. unfold trim. cbn [trim_left].
  destruct (numeral_start_facts c Hc) as (_ & Hsp & _). rewrite Hsp.
  destruct Hc as [->|Hd].
  - cbn [signed_decimal] in Hz.
    destruct (decimal s) as [[z' r]|] eqn:Hs; [|done].
    cbn in Hz. injection Hz as _ ->.
    cbn [trim_right]. rewrite (decimal_trim _ _ Hs). by destruct s.
  - rewrite signed_decimal_digit in Hz by done. apply (decimal_trim _ _ Hz).
Qed.

Lemma valid_number_to_string (z : Z) :
  DOM.valid_number (number_to_string (Int z)) = Some z.
Proof.
  destruct (number_to_string_shape z) as (c & s & E & Hc & Hz).
  unfold DOM.valid_number. by rewrite E, Hz.
Qed.

Lemma parseFloat_to_string (z : Z) :
  parseFloat (number_to_string (Int z)) = Int z.
Proof.
  destruct (number_to_string_shape z) as (c & s & E & Hc & Hz).
  unfold parseFloat. rewrite E. cbn [trim_left].
  destruct (numeral_start_facts c Hc) as (_ & -> & _).
  by rewrite (signed_decimal_head true c s Hc), Hz.
Qed.

Lemma StringToNumber_to_string (z : Z) :
  StringToNumber (number_to_string (Int z)) = Int z.
Proof.
  unfold StringToNumber. rewrite number_to_string_trim.
  destruct (number_to_string_shape z) as (c & s & E & Hc & Hz).
  rewrite E. by rewrite (signed_decimal_head true c s Hc), Hz.
Qed.

Lemma number_to_string_nonempty (z : Z) :
  ToBoolean (VStr (number_to_string (Int z))) = true.
Proof.
  destruct (number_to_string_shape z) as (c & s & E & _). by rewrite E.
Qed.

(** * The reference codec reads back what it writes *)

(** Induction on values, with the property known of the items of an array and
    of the members of an object. *)
Lemma value_nested_ind (P : value → Prop) :
  P VNull → (∀ b, P (VBool b)) → (∀ n, P (VNum n)) → (∀ s, P (VStr s)) →
  (∀ items, Forall P items → P (VArr items)) →
  (∀ members, Forall (λ m, P m.2) members → P (VObj members)) →
  ∀ v, P v.
Proof.
  intros Hnull Hbool Hnum Hstr Harr Hobj.
  fix IH 1. intros [ |b|n|s|items|members].
  - exact Hnull.
  - apply Hbool.
  - apply Hnum.
  - apply Hstr.
  - apply Harr. induction items as [|x l IHl]; constructor; [apply IH | exact IHl].
  - apply Hobj. induction members as [|[k x] l IHl]; constructor; [apply IH | exact IHl].
Qed.

Lemma wellformed_array (items : list value) :
  JSON.wellformed (VArr items) ↔ Forall JSON.wellformed items.
Proof.
  induction items as [|x l IH]; [by split|].
  rewrite Forall_cons, <- IH. reflexivity.
Qed.

Lemma wellformed_object (members : list (string * value)) :
  JSON.wellformed (VObj members)
  ↔ NoDup members.*1 ∧ Forall (λ m, JSON.wellformed m.2) members.
Proof.
  cbn [JSON.wellformed]. apply and_iff_compat_l.
  induction members as [|m l IH]; [by split|].
  rewrite Forall_cons, <- IH. reflexivity.
Qed.

Lemma weight_array (items : list value) :
  JSON.weight (VArr items) = S (sum_list_with (λ x, S (JSON.weight x)) items).
Proof.
  reflexivity.
Qed.

Lemma weight_object (members : list (string * value)) :
  JSON.weight (VObj members)
  = S (sum_list_with (λ m, S (JSON.weight m.2)) members).
Proof.
  reflexivity.
Qed.

(** ** Strings *)

Lemma string_body_escape_char (c : ascii) (tail : string) :
  JSON.string_body (JSON.escape_char c +:+ tail)
  = (r ← JSON.string_body tail; Some (String c r.1, r.2)).
Proof. destruct c as [[] [] [] [] [] [] [] []]; reflexivity. Qed.

Lemma string_body_escape (s rest : string) :
  JSON.string_body (JSON.escape s +:+ String JSON.dquote rest) = Some (s, rest).
Proof.
  induction s as [|c s IH]; [reflexivity|].
  cbn [JSON.escape]. rewrite append_assoc, string_body_escape_char, IH.
  reflexivity.
Qed.

Lemma quote_append (s rest : string) :
  JSON.quote s +:+ rest
  = String JSON.dquote (JSON.escape s +:+ String JSON.dquote rest).
Proof. unfold JSON.quote. by rewrite append_cons, append_assoc. Qed.

(** ** Values *)

Lemma delimited_no_digit (rest : string) : JSON.delimited rest → JSON.no_digit rest.
Proof.
  destruct rest as [|c s]; [intros _; apply no_digit_nil|].
  intros H. apply no_digit_cons. by destruct H as [->|[->| ->]].
Qed.

Lemma delimited_integral (z : Z) (rest : string) :
  JSON.delimited rest → JSON.integral (z, rest) = Some (z, rest).
Proof.
  destruct rest as [|c s]; [done|]. by intros [->|[->| ->]].
Qed.

Lemma delimited_skip_ws (rest : string) :
  JSON.delimited rest → JSON.skip_ws rest = rest.
Proof.
  destruct rest as [|c s]; [done|]. by intros [->|[->| ->]].
Qed.

Lemma stringify_start (v : value) :
  ∃ c s, JSON.stringify v = String c s ∧ JSON.value_start c.
Proof.
  destruct v as [ |[]|[|z]|s|items|members]; try by eexists _, _.
  destruct (number_to_string_read z) as (c & s & E & Hc & _).
  exists c, s. split; [exact E|].
  destruct (numeral_start_facts c Hc) as (? & _ & _ & _ & _ & _ & _ & _ & ? & ?).
  done.
Qed.

Lemma join_cons (sep p q : string) (parts : list string) :
  join sep (p :: q :: parts) = p +:+ sep +:+ join sep (q :: parts).
Proof. reflexivity. Qed.

Lemma elements_at_step (fuel : nat) (s rest : string) (x : value) :
  JSON.value_at fuel s = Some (x, String "," rest) →
  JSON.elements_at (S fuel) s
  = (r ← JSON.elements_at fuel rest; Some (x :: r.1, r.2)).
Proof. intros H. cbn [JSON.elements_at]. rewrite H. reflexivity. Qed.

Lemma elements_at_last (fuel : nat) (s rest : string) (x : value) :
  JSON.value_at fuel s = Some (x, String "]" rest) →
  JSON.elements_at (S fuel) s = Some ([x], rest).
Proof. intros H. cbn [JSON.elements_at]. rewrite H. reflexivity. Qed.

Lemma elements_at_join (items : list value) :
  items ≠ [] → Forall JSON.reads_back items →
  ∀ (fuel : nat) (rest : string),
    (sum_list_with (λ x, S (JSON.weight x)) items ≤ fuel)%nat →
    JSON.elements_at fuel
      (join "," (map JSON.stringify items) +:+ String "]" rest)
    = Some (items, rest).
Proof.
  induction items as [|x l IH]; [done|]. intros _ Hall fuel rest Hfuel.
  apply Forall_cons in Hall as [Hx Hl]. cbn [sum_list_with] in Hfuel.
  destruct fuel as [|fuel]; [lia|]. destruct l as [|y l].
  - apply elements_at_last. apply Hx; [lia | by right; left].
  - change (map JSON.stringify (x :: y :: l))
      with (JSON.stringify x :: JSON.stringify y :: map JSON.stringify l).
    rewrite join_cons.
    change (JSON.stringify y :: map JSON.stringify l)
      with (map JSON.stringify (y :: l)).
    rewrite !append_assoc, (append_cons "," EmptyString), append_nil.
    rewrite (elements_at_step fuel _ _ x) by (apply Hx; [lia | by left]).
    rewrite IH; [reflexivity | done | done | lia].
Qed.

Lemma members_at_key (fuel : nat) (k s : string) (acc : list (string * value)) :
  JSON.members_at (S fuel) (JSON.quote k +:+ String ":" s) acc
  = (r ← JSON.value_at fuel s;
     let acc' := JSON.put_member k r.1 acc in
     match JSON.expect "," (JSON.skip_ws r.2) with
     | Some rest => JSON.members_at fuel rest acc'
     | None => rest ← JSON.expect "}" (JSON.skip_ws r.2); Some (acc', rest)
     end).
Proof.
  rewrite quote_append. cbn [JSON.members_at JSON.skip_ws].
  change (JSON.is_ws JSON.dquote) with false. cbn iota.
  cbn [JSON.expect]. change (Ascii.eqb JSON.dquote JSON.dquote) with true.
  cbn iota. cbn [mbind option_bind]. rewrite string_body_escape.
  reflexivity.
Qed.

Lemma put_member_fresh (k : string) (v : value) (acc : list (string * value)) :
  k ∉ acc.*1 → JSON.put_member k v acc = (acc ++ [(k, v)])%list.
Proof.
  induction acc as [|m acc IH]; [done|]. cbn [JSON.put_member fmap list_fmap].
  rewrite not_elem_of_cons. intros [Hk Hacc].
  destruct (String.eqb_spec m.1 k) as [E|_]; [by destruct Hk|].
  cbn [app]. by rewrite <- IH.
Qed.

Lemma members_at_join (members : list (string * value)) :
  members ≠ [] → Forall (λ m, JSON.reads_back m.2) members →
  ∀ (fuel : nat) (rest : string) (acc : list (string * value)),
    (sum_list_with (λ m, S (JSON.weight m.2)) members ≤ fuel)%nat →
    NoDup ((acc ++ members)%list).*1 →
    JSON.members_at fuel (join "," (map JSON.member members) +:+ String "}" rest) acc
    = Some ((acc ++ members)%list, rest).
Proof.
  induction members as [|[k x] l IH]; [done|].
  intros _ Hall fuel rest acc Hfuel Hkeys.
  apply Forall_cons in Hall as [Hx Hl]. cbn [sum_list_with snd] in Hfuel.
  cbn [snd] in Hx.
  assert (k ∉ acc.*1) as Hk.
  { rewrite fmap_app, NoDup_app in Hkeys. destruct Hkeys as (_ & Hdis & _).
    intros Hin. apply (Hdis _ Hin). cbn. left. }
  assert (((acc ++ [(k, x)]) ++ l = acc ++ (k, x) :: l)%list) as Hacc
    by (by rewrite <- app_assoc).
  destruct fuel as [|fuel]; [lia|]. destruct l as [|m l].
  - cbn [map join]. unfold JSON.member at 1. cbn [fst snd].
    rewrite !append_assoc, (append_cons ":" EmptyString), append_nil.
    rewrite members_at_key, Hx; [|lia|by right; right].
    cbn [mbind option_bind fst snd]. rewrite (put_member_fresh _ _ _ Hk).
    rewrite <- Hacc, app_nil_r. reflexivity.
  - change (map JSON.member ((k, x) :: m :: l))
      with (JSON.member (k, x) :: JSON.member m :: map JSON.member l).
    rewrite join_cons.
    change (JSON.member m :: map JSON.member l) with (map JSON.member (m :: l)).
    unfold JSON.member at 1. cbn [fst snd].
    rewrite !append_assoc, (append_cons ":" EmptyString), append_nil.
    rewrite (append_cons "," EmptyString), append_nil.
    rewrite members_at_key, Hx; [|lia|by left].
    cbn [mbind option_bind fst snd]. rewrite (put_member_fresh _ _ _ Hk).
    change (JSON.expect "," (JSON.skip_ws (String "," ?r))) with (Some r).
    cbn iota. rewrite IH; [by rewrite Hacc | done | done | lia |].
    by rewrite Hacc.
Qed.

Lemma value_at_string (fuel : nat) (body : string) :
  JSON.value_at (S fuel) (String JSON.dquote body)
  = (r ← JSON.string_body body; Some (VStr r.1, r.2)).
Proof. reflexivity. Qed.

Lemma value_at_array (fuel : nat) (body : string) :
  JSON.value_at (S fuel) (String "[" body)
  = match JSON.expect "]" (JSON.skip_ws body) with
    | Some rest => Some (VArr [], rest)
    | None => r ← JSON.elements_at fuel body; Some (VArr r.1, r.2)
    end.
Proof. reflexivity. Qed.

Lemma value_at_object (fuel : nat) (body : string) :
  JSON.value_at (S fuel) (String "{" body)
  = match JSON.expect "}" (JSON.skip_ws body) with
    | Some rest => Some (VObj [], rest)
    | None => r ← JSON.members_at fuel body []; Some (VObj r.1, r.2)
    end.
Proof. reflexivity. Qed.

Lemma value_at_number (fuel : nat) (c : ascii) (s : string) :
  JSON.numeral_start c →
  JSON.value_at (S fuel) (String c s)
  = (r ← JSON.numeral (String c s); Some (VNum (Int r.1), r.2)).
Proof.
  intros Hc.
  destruct (numeral_start_facts c Hc)
    as (H1 & _ & H2 & H3 & H4 & H5 & H6 & H7 & _).
  cbn [JSON.value_at JSON.skip_ws]. by rewrite H1, H2, H3, H4, H5, H6, H7.
Qed.

(** Nothing is closed where a value starts. *)
Lemma expect_start (v : value) (rest : string) :
  JSON.skip_ws (JSON.stringify v +:+ rest) = JSON.stringify v +:+ rest
  ∧ JSON.expect "]" (JSON.stringify v +:+ rest) = None
  ∧ JSON.expect "}" (JSON.stringify v +:+ rest) = None.
Proof.
  destruct (stringify_start v) as (c & s & -> & Hws & Ha & Ho).
  rewrite append_cons. cbn [JSON.skip_ws JSON.expect]. by rewrite Hws, Ha, Ho.
Qed.

Lemma value_at_stringify (v : value) : JSON.wellformed v → JSON.reads_back v.
Proof.
  induction v as [ |b|n|s|items IH|members IH] using value_nested_ind;
    intros Hwf fuel rest Hfuel Hrest.
  - destruct fuel; [cbn in Hfuel; lia | reflexivity].
  - destruct fuel; [cbn in Hfuel; lia | by destruct b].
  - destruct n as [|z]; [done|].
    destruct fuel as [|fuel]; [cbn in Hfuel; lia|].
    destruct (number_to_string_read z) as (c & s & E & Hc & Hread).
    destruct (Hread rest (delimited_no_digit _ Hrest)) as [_ Hnum].
    specialize (Hnum (delimited_integral _ _ Hrest)).
    cbn [JSON.stringify]. rewrite E, append_cons in *.
    by rewrite (value_at_number _ _ _ Hc), Hnum.
  - destruct fuel as [|fuel]; [cbn in Hfuel; lia|].
    cbn [JSON.stringify]. rewrite quote_append, value_at_string.
    by rewrite string_body_escape.
  - rewrite wellformed_array in Hwf. rewrite weight_array in Hfuel.
    destruct fuel as [|fuel]; [lia|].
    assert (Forall JSON.reads_back items) as Hall.
    { rewrite Forall_forall in *. naive_solver. }
    cbn [JSON.stringify].
    rewrite append_cons, append_nil, append_cons, append_assoc.
    rewrite value_at_array. destruct items as [|x l]; [reflexivity|].
    assert (∃ s, join "," (map JSON.stringify (x :: l)) = JSON.stringify x +:+ s)
      as [s Hs].
    { destruct l; [exists EmptyString; cbn; by rewrite append_empty|].
      eexists. apply join_cons. }
    rewrite (append_cons "]" EmptyString), append_nil.
    rewrite Hs at 1. rewrite append_assoc.
    destruct (expect_start x (s +:+ String "]" rest)) as (-> & -> & _).
    rewrite elements_at_join; [reflexivity | done | done | lia].
  - rewrite wellformed_object in Hwf. destruct Hwf as [Hkeys Hwf].
    rewrite weight_object in Hfuel.
    destruct fuel as [|fuel]; [lia|].
    assert (Forall (λ m, JSON.reads_back m.2) members) as Hall.
    { rewrite Forall_forall in *. naive_solver. }
    cbn [JSON.stringify]. fold JSON.member.
    change (map (λ m, JSON.quote m.1 +:+ ":" +:+ JSON.stringify m.2) members)
      with (map JSON.member members).
    rewrite append_cons, append_nil, append_cons, append_assoc.
    rewrite value_at_object. destruct members as [|[k x] l]; [reflexivity|].
    assert (∃ s, join "," (map JSON.member ((k, x) :: l)) = JSON.quote k +:+ s)
      as [s Hs].
    { destruct l.
      - eexists. cbn [map join]. unfold JSON.member. cbn [fst snd]. reflexivity.
      - eexists. cbn [map]. rewrite join_cons. unfold JSON.member at 1.
        cbn [fst]. rewrite append_assoc. reflexivity. }
    rewrite (append_cons "}" EmptyString), append_nil.
    rewrite Hs at 1. rewrite append_assoc, quote_append.
    cbn [JSON.skip_ws]. change (JSON.is_ws JSON.dquote) with false. cbn iota.
    cbn [JSON.expect]. change (Ascii.eqb JSON.dquote "}") with false. cbn iota.
    rewrite members_at_join; [reflexivity | done | done | lia | done].
Qed.

(** ** The length of what is written *)

Lemma stringify_length (v : value) :
  (JSON.weight v + 1 ≤ 2 * String.length (JSON.stringify v))%nat.
Proof.
  induction v as [ |b|n|s|items IH|members IH] using value_nested_ind.
  - cbn. lia.
  - destruct b; cbn; lia.
  - destruct n as [|z]; [cbn; lia|].
    destruct (number_to_string_read z) as (c & s & E & _).
    cbn [JSON.stringify JSON.weight]. rewrite E. cbn [String.length]. lia.
  - cbn [JSON.stringify JSON.weight JSON.quote String.length]. lia.
  - rewrite weight_array. cbn [JSON.stringify].
    rewrite append_cons, append_nil. cbn [String.length]. rewrite length_append.
    enough (sum_list_with (λ x, S (JSON.weight x)) items
            ≤ 2 * String.length (join "," (map JSON.stringify items)))%nat by lia.
    induction items as [|x l IHl]; [done|].
    apply Forall_cons in IH as [Hx Hl]. specialize (IHl Hl).
    cbn [sum_list_with]. destruct l as [|y l]; [cbn in *; lia|].
    change (map JSON.stringify (x :: y :: l))
      with (JSON.stringify x :: map JSON.stringify (y :: l)).
    change (map JSON.stringify (y :: l))
      with (JSON.stringify y :: map JSON.stringify l) at 1.
    rewrite join_cons, !length_append. cbn [String.length]. 
    change (JSON.stringify y :: map JSON.stringify l)
      with (map JSON.stringify (y :: l)). lia.
  - rewrite weight_object. cbn [JSON.stringify].
    change (map (λ m, JSON.quote m.1 +:+ ":" +:+ JSON.stringify m.2) members)
      with (map JSON.member members).
    rewrite append_cons, append_nil. cbn [String.length]. rewrite length_append.
    enough (sum_list_with (λ m, S (JSON.weight m.2)) members
            ≤ 2 * String.length (join "," (map JSON.member members)))%nat by lia.
    induction members as [|x l IHl]; [done|].
    apply Forall_cons in IH as [Hx Hl]. specialize (IHl Hl).
    assert (JSON.weight x.2 + 1 ≤ 2 * String.length (JSON.member x))%nat as Hm.
    { unfold JSON.member. rewrite !length_append. lia. }
    cbn [sum_list_with]. destruct l as [|y l]; [cbn in *; lia|].
    change (map JSON.member (x :: y :: l)) with (JSON.member x :: map JSON.member (y :: l)).
    change (map JSON.member (y :: l)) with (JSON.member y :: map JSON.member l) at 1.
    rewrite join_cons, !length_append. cbn [String.length].
    change (JSON.member y :: map JSON.member l) with (map JSON.member (y :: l)). lia.
Qed.

Theorem parse_stringify (v : value) :
  JSON.wellformed v → JSON.parse (JSON.stringify v) = Some v.
Proof.
  intros Hwf. unfold JSON.parse.
  pose proof (stringify_length v) as Hlen.
  pose proof (value_at_stringify v Hwf
    (2 + 2 * String.length (JSON.stringify v))%nat EmptyString) as H.
  rewrite append_empty in H. rewrite H; [reflexivity | lia | done].
Qed.

(** With the reference codec every well-formed value is serializable, and so
    comes back from [get] as it was given to [set], at a key that is not the
    name of a member of the storage object. *)
Corollary wellformed_serializable (v : value) :
  JSON.wellformed v → Storage.serializable JSON.stringify JSON.parse v.
Proof. apply parse_stringify. Qed.

Corollary set_get_wellformed (web : WebStorage.Platform) (name : string)
    (v : value) (s : Storage.state) :
  WebStorage.member web (Storage.prefix (Storage.this s) +:+ name) = false →
  JSON.wellformed v →
  ∃ s', Storage.set web JSON.stringify name v s = (Normal tt, s')
        ∧ Storage.get web JSON.parse name s' = (Normal v, s').
Proof. intros Hm Hv. by apply set_get, wellformed_serializable. Qed.

(** * Properties of options_page.js *)

Section PageProperties.

Import OptionsPage.
Local Open Scope Z_scope.

Lemma element_run (id : nat) (pg : Page) (e : DOM.Element) :
  document pg !! id = Some e → element id pg = (Normal e, pg).
Proof. intros H. unfold element. by rewrite H. Qed.

Lemma bounded_number_assign (e : DOM.Element) (lo hi : Z) (v : value) :
  DOM.bounded_number e lo hi → DOM.bounded_number (DOM.assign_value v e) lo hi.
Proof. by intros (? & ? & ? & ?). Qed.

Lemma assign_number (e : DOM.Element) (lo hi n : Z) :
  DOM.bounded_number e lo hi →
  DOM.value (DOM.assign_value (VNum (Int n)) e) = number_to_string (Int n)
  ∧ DOM.value (DOM.assign_value (VStr (number_to_string (Int n))) e)
    = number_to_string (Int n).
Proof.
  intros (Ht & Ho & _). unfold DOM.assign_value, DOM.sanitize.
  cbn [DOM.value ToString]. unfold DOM.one_line. rewrite Ho, Ht.
  change (String.eqb "number" "text") with false.
  change (String.eqb "number" "search") with false.
  change (String.eqb "number" "tel") with false.
  change (String.eqb "number" "password") with false.
  change (String.eqb "number" "number") with true. cbn [orb].
  by rewrite valid_number_to_string.
Qed.

Lemma valueAsNumber_number (e : DOM.Element) (lo hi n : Z) :
  DOM.bounded_number e lo hi → DOM.value e = number_to_string (Int n) →
  DOM.valueAsNumber e = Int n.
Proof.
  intros (Ht & _) Hv. unfold DOM.valueAsNumber, DOM.numeric_type.
  rewrite Ht, Hv. change (String.eqb "number" "number") with true.
  cbn [orb]. by rewrite valid_number_to_string.
Qed.

Lemma coerceToLimits_number (id : nat) (pg : Page) (e : DOM.Element)
    (lo hi n : Z) (v : option value) :
  document pg !! id = Some e →
  DOM.bounded_number e lo hi → lo ≤ hi →
  DOM.value e = number_to_string (Int n) →
  v = None ∨ v = Some (VNum (Int n)) →
  coerceToLimits id v pg =
    if n <? lo then
      (Normal (VStr (number_to_string (Int lo))),
       set_document
         (alter (DOM.assign_value (VStr (number_to_string (Int lo)))) id
            (document pg)) pg)
    else if hi <? n then
      (Normal (VStr (number_to_string (Int hi))),
       set_document
         (alter (DOM.assign_value (VStr (number_to_string (Int hi)))) id
            (document pg)) pg)
    else (Normal (VNum (Int n)), pg).
Proof.
  intros Hid He Hle Hv Harg.
  pose proof (valueAsNumber_number e lo hi n He Hv) as Hn.
  destruct He as (Ht & Ho & Hmin & Hmax).
  unfold coerceToLimits. unfold mbind at 1, Proc_bind at 1.
  rewrite (element_run id pg e Hid).
  assert (match v with
          | Some x => if ToBoolean x then x else VNum (DOM.valueAsNumber e)
          | None => VNum (DOM.valueAsNumber e)
          end = VNum (Int n)) as ->.
  { rewrite Hn. destruct Harg as [->| ->]; [done|]. by destruct (ToBoolean _). }
  rewrite Hmin, Hmax, !number_to_string_nonempty, !parseFloat_to_string.
  cbn [andb less_than ToPrimitive ToNumber number_ltb].
  destruct (Z.ltb_spec n lo) as [Hlt|Hge].
  - unfold mbind, Proc_bind, assign, modify, mret, Proc_ret.
    cbn [less_than ToPrimitive ToNumber number_ltb].
    rewrite StringToNumber_to_string. cbn [number_ltb].
    destruct (Z.ltb_spec hi lo); [lia|].
    unfold isNaN. cbn [ToNumber]. by rewrite StringToNumber_to_string.
  - unfold mbind, Proc_bind, assign, modify, mret, Proc_ret.
    cbn [less_than ToPrimitive ToNumber number_ltb].
    destruct (Z.ltb_spec hi n) as [Hgt|Hle'].
    + unfold isNaN. cbn [ToNumber]. by rewrite StringToNumber_to_string.
    + reflexivity.
Qed.

Lemma set_storage_same (o : Storage.SettingStorage) (pg : Page) :
  storage pg = Some o → set_storage o pg = pg.
Proof. destruct pg. cbn. by intros ->. Qed.

Lemma on_storage_get (name : string) (pg : Page) (o : Storage.SettingStorage)
    (text : string) (v : value) :
  storage pg = Some o →
  WebStorage.read WebStorage.standard (preferences pg)
    (Storage.prefix o +:+ name) = Some text →
  JSON.parse text = Some v →
  on_storage (Storage.get WebStorage.standard JSON.parse name) pg
  = (Normal v, pg).
Proof.
  intros Ho Hk Hv. unfold on_storage. rewrite Ho, get_run.
  cbn [Storage.this Storage.storage fst snd]. rewrite Hk, Hv.
  rewrite (set_storage_same o pg Ho). by destruct pg.
Qed.

Lemma on_storage_set (name : string) (v : value) (pg : Page)
    (o : Storage.SettingStorage) :
  storage pg = Some o →
  on_storage (Storage.set WebStorage.standard JSON.stringify name v) pg =
    (Normal tt,
     set_preferences
       (WebStorage.write WebStorage.standard (Storage.prefix o +:+ name)
          (JSON.stringify v) (preferences pg)) pg).
Proof.
  intros Ho. unfold on_storage. rewrite Ho, set_run.
  cbn [Storage.this Storage.storage Storage.set_storage fst snd].
  by rewrite (set_storage_same o pg Ho).
Qed.

Ltac decide_types :=
  repeat match goal with
         | |- context [@bool_decide (toLowerCase ?t ∈ ?h) ?D] =>
             let b := eval vm_compute in (@bool_decide (toLowerCase t ∈ h) D) in
             change (@bool_decide (toLowerCase t ∈ h) D) with b
         end; cbn iota.

Lemma number_type_sets :
  bool_decide (toLowerCase "number" ∈ checkable) = false
  ∧ bool_decide (toLowerCase "number" ∈ numeric) = true.
Proof. split; by vm_compute. Qed.

Lemma elementChanged_number (id : nat) (pg : Page) (e : DOM.Element)
    (o : Storage.SettingStorage) (lo hi n : Z) :
  document pg !! id = Some e →
  DOM.bounded_number e lo hi → lo ≤ n ≤ hi →
  DOM.value e = number_to_string (Int n) →
  DOM.getAttribute e "data-savefunc" = None →
  storage pg = Some o →
  elementChanged id pg =
    (Normal tt,
     set_preferences
       (WebStorage.write WebStorage.standard (Storage.prefix o +:+ DOM.name e)
          (number_to_string (Int n)) (preferences pg)) pg).
Proof.
  intros Hid He Hn Hv Hsave Ho.
  pose proof (valueAsNumber_number e lo hi n He Hv) as Hnum.
  unfold elementChanged. unfold mbind at 1, Proc_bind at 1.
  rewrite (element_run id pg e Hid).
  destruct number_type_sets as [Hc Hnm].
  destruct He as (Ht & Ho' & Hmin & Hmax). cbn zeta. rewrite Ht. clear Hc Hnm. decide_types.
  unfold mbind at 1, Proc_bind at 1. rewrite Hnum.
  rewrite (coerceToLimits_number id pg e lo hi n _ Hid
             (conj Ht (conj Ho' (conj Hmin Hmax)))) by (lia || done || by right).
  destruct (Z.ltb_spec n lo); [lia|]. destruct (Z.ltb_spec hi n); [lia|].
  unfold getTransformFunction. change ("data-" +:+ "savefunc") with "data-savefunc".
  rewrite Hsave. unfold mbind, Proc_bind, mret, Proc_ret.
  cbn [apply_filter]. unfold mret, Proc_ret.
  by rewrite (on_storage_set _ _ pg o Ho).
Qed.

Lemma assign_run (id : nat) (f : DOM.Element → DOM.Element) (pg : Page) :
  assign id f pg = (Normal tt, set_document (alter f id (document pg)) pg).
Proof. reflexivity. Qed.

Theorem update_number_control (id : nat) (pg : Page) (e : DOM.Element)
    (o : Storage.SettingStorage) (lo hi z : Z) (text : string) :
  document pg !! id = Some e →
  DOM.bounded_number e lo hi → lo ≤ hi →
  DOM.getAttribute e "data-loadfunc" = None →
  DOM.getAttribute e "data-savefunc" = None →
  storage pg = Some o →
  WebStorage.read WebStorage.standard (preferences pg)
    (Storage.prefix o +:+ DOM.name e) = Some text →
  JSON.parse text = Some (VNum (Int z)) →
  let c := Z.max lo (Z.min z hi) in
  ∃ pg', update (Element id) pg = (Normal tt, pg')
    ∧ DOM.value <$> document pg' !! id = Some (number_to_string (Int c))
    ∧ preferences pg' =
        if (lo <=? z) && (z <=? hi) then preferences pg
        else WebStorage.write WebStorage.standard
               (Storage.prefix o +:+ DOM.name e) (number_to_string (Int c))
               (preferences pg).
Proof.
  intros Hid He Hle Hload Hsave Ho Hk Htext c.
  pose proof He as (Ht & Hopt & Hmin & Hmax).
  cbn [update]. unfold one_or_each. unfold mbind at 1, Proc_bind at 1.
  rewrite (element_run id pg e Hid). unfold DOM.length. rewrite Hopt.
  cbn [fmap option_fmap option_map].
  unfold updateElement. unfold mbind at 1, Proc_bind at 1.
  rewrite (element_run id pg e Hid). cbn zeta. cbn [or_else].
  unfold mbind at 1, Proc_bind at 1.
  rewrite (on_storage_get _ pg o text _ Ho Hk Htext).
  unfold getTransformFunction at 1.
  change ("data-" +:+ "loadfunc") with "data-loadfunc". rewrite Hload.
  unfold mbind at 1, Proc_bind at 1. unfold mret at 1, Proc_ret at 1.
  unfold mbind at 1, Proc_bind at 1. cbn [apply_filter].
  unfold mret at 1, Proc_ret at 1.
  rewrite Ht. decide_types.
  unfold mbind at 1, Proc_bind at 1. rewrite assign_run.
  set (pg1 := set_document _ pg).
  set (e1 := DOM.assign_value (VNum (Int z)) e).
  assert (document pg1 !! id = Some e1) as Hid1.
  { unfold pg1. cbn [document set_document]. by rewrite list_lookup_alter_eq, Hid. }
  pose proof (bounded_number_assign e lo hi (VNum (Int z)) He) as He1.
  fold e1 in He1.
  destruct (assign_number e lo hi z He) as [Hv1 _]. fold e1 in Hv1.
  unfold mbind at 1, Proc_bind at 1.
  rewrite (coerceToLimits_number id pg1 e1 lo hi z None Hid1 He1 Hle Hv1)
    by by left.
  destruct (Z.ltb_spec z lo) as [Hlt|Hge];
    [|destruct (Z.ltb_spec hi z) as [Hgt|Hle2]].
  - cbn [equals ToPrimitive ToNumber]. rewrite StringToNumber_to_string.
    cbn [number_eqb]. destruct (Z.eqb_spec lo z); [lia|]. cbn [negb].
    set (pg2 := set_document _ pg1).
    set (e2 := DOM.assign_value (VStr (number_to_string (Int lo))) e1).
    assert (document pg2 !! id = Some e2) as Hid2.
    { unfold pg2. cbn [document set_document].
      by rewrite list_lookup_alter_eq, Hid1. }
    pose proof (bounded_number_assign e1 lo hi
                  (VStr (number_to_string (Int lo))) He1) as He2.
    fold e2 in He2.
    destruct (assign_number e1 lo hi lo He1) as [_ Hv2]. fold e2 in Hv2.
    rewrite (elementChanged_number id pg2 e2 o lo hi lo Hid2 He2) by (lia || done).
    eexists. split; [reflexivity|].
    cbn [document preferences set_preferences]. rewrite Hid2.
    cbn [fmap option_fmap option_map]. rewrite Hv2.
    replace c with lo by (unfold c; lia).
    destruct (Z.leb_spec lo z); [lia|]. done.
  - cbn [equals ToPrimitive ToNumber]. rewrite StringToNumber_to_string.
    cbn [number_eqb]. destruct (Z.eqb_spec hi z); [lia|]. cbn [negb].
    set (pg2 := set_document _ pg1).
    set (e2 := DOM.assign_value (VStr (number_to_string (Int hi))) e1).
    assert (document pg2 !! id = Some e2) as Hid2.
    { unfold pg2. cbn [document set_document].
      by rewrite list_lookup_alter_eq, Hid1. }
    pose proof (bounded_number_assign e1 lo hi
                  (VStr (number_to_string (Int hi))) He1) as He2.
    fold e2 in He2.
    destruct (assign_number e1 lo hi hi He1) as [_ Hv2]. fold e2 in Hv2.
    rewrite (elementChanged_number id pg2 e2 o lo hi hi Hid2 He2) by (lia || done).
    eexists. split; [reflexivity|].
    cbn [document preferences set_preferences]. rewrite Hid2.
    cbn [fmap option_fmap option_map]. rewrite Hv2.
    replace c with hi by (unfold c; lia).
    destruct (Z.leb_spec lo z); [|lia]. destruct (Z.leb_spec z hi); [lia|].
    done.
  - cbn [equals ToPrimitive ToNumber number_eqb]. rewrite Z.eqb_refl.
    cbn [negb]. eexists. split; [reflexivity|].
    rewrite Hid1. cbn [fmap option_fmap option_map]. rewrite Hv1.
    replace c with z by (unfold c; lia).
    destruct (Z.leb_spec lo z); [|lia]. destruct (Z.leb_spec z hi); [|lia].
    done.
Qed.

End PageProperties.


(** A transform attribute that is missing, or that names nothing or a falsy
    value of the global scope, leaves the value as it is. *)
Lemma transform_without_effect (e : DOM.Element) (type : string)
    (v : value) (pg : OptionsPage.Page) :
  match DOM.getAttribute e ("data-" +:+ type) with
  | None => True
  | Some func =>
      match OptionsPage.window pg !! func with
      | None => True
      | Some (OptionsPage.GValue g) => ToBoolean g = false
      | Some (OptionsPage.GFunction _) => False
      end
  end →
  (filter ← OptionsPage.getTransformFunction e type;
   OptionsPage.apply_filter filter v) pg = (Normal v, pg).
Proof.
  unfold OptionsPage.getTransformFunction.
  destruct (DOM.getAttribute e _) as [func|]; [|done].
  unfold mbind, Proc_bind, gets, mret, Proc_ret. cbn [fst snd].
  destruct (OptionsPage.window pg !! func) as [[f|g]|]; [done| |done].
  intros Hg. cbn [OptionsPage.apply_filter]. by rewrite Hg.
Qed.

Lemma update_number_control_example :
  let σ : gmap string string := {["numeric" := "15"]} in
  let pg := OptionsPage.mkPage [Sample.numeric_input] ∅ σ
              (Some Sample.later_run) true [0%nat] true [0%nat] [] in
  ∃ pg', OptionsPage.update (OptionsPage.Element 0) pg = (Normal tt, pg')
    ∧ DOM.value <$> OptionsPage.document pg' !! 0%nat = Some "10"
    ∧ OptionsPage.preferences pg' = {["numeric" := "10"]}.
Proof.
  intros σ pg.
  destruct (update_number_control 0 pg Sample.numeric_input Sample.later_run
              0 10 15 "15") as (pg' & H1 & H2 & H3); try reflexivity.
  - repeat split.
  - apply Z.leb_le. reflexivity.
  - exists pg'. split; [exact H1|]. split; [exact H2|]. exact H3.
Qed.

(** The spec's example: the page is loaded over a storage that holds 15 for
    the numeric control, whose maximum is 10; the control is bound, shows 10,
    and 10 is stored. *)
Lemma load_clamps_and_persists :
  let σ : gmap string string := {["numeric" := "15"]} in
  ∃ pg', Sample.load (Sample.fresh Sample.numeric_input ∅ σ) = (Normal tt, pg')
    ∧ OptionsPage.change pg' = [0%nat]
    ∧ DOM.value <$> OptionsPage.document pg' !! 0%nat = Some "10"
    ∧ OptionsPage.preferences pg' = {["numeric" := "10"]}.
Proof.
  eexists. split; [vm_compute; reflexivity|]. repeat split; reflexivity.
Qed.

(** C8 at a failing input: the numeric control with [min=0] and [max=10],
    over a storage that holds the empty string for it.  The page loads and
    binds the control.  The control shows nothing when the stored value is
    assigned; [update] makes it show the coerced value [0] and ends without
    having stored anything, although a change event on the control in this
    state stores [0]. *)
Theorem C8_coerced_value_not_persisted :
  let σ : gmap string string :=
    {["numeric" := JSON.stringify (VStr EmptyString)]} in
  DOM.value (DOM.assign_value (VStr EmptyString) Sample.numeric_input)
  = EmptyString
  ∧ ∃ pg1 pg2,
      Sample.load (Sample.fresh Sample.numeric_input ∅ σ) = (Normal tt, pg1)
      ∧ OptionsPage.change pg1 = [0%nat]
      ∧ OptionsPage.update (OptionsPage.Element 0) pg1 = (Normal tt, pg2)
      ∧ DOM.value <$> OptionsPage.document pg2 !! 0%nat = Some "0"
      ∧ OptionsPage.preferences pg2 = σ
      ∧ ∃ pg3, OptionsPage.dispatch (OptionsPage.Change 0) pg2
               = (Normal tt, pg3)
          ∧ OptionsPage.preferences pg3 = {["numeric" := "0"]}.
Proof.
  split; [reflexivity|].
  eexists. eexists. split; [vm_compute; reflexivity|].
  split; [reflexivity|]. split; [vm_compute; reflexivity|].
  split; [reflexivity|]. split; [reflexivity|].
  eexists. split; [vm_compute; reflexivity|]. reflexivity.
Qed.

(** C9 at a failing input: the text control names, as its load or save
    transform, the global variable [storage], which holds an object.  With
    the load transform, loading the page ends with a [TypeError] and leaves
    the control unfilled, and so does a later [update]; the same control
    without the attribute is filled from the storage.  With the save
    transform, [save] ends with a [TypeError] and stores nothing, where the
    control without the attribute is saved. *)
Theorem C9_uncallable_transform_throws :
  let w : gmap string OptionsPage.Global :=
    {["storage" := OptionsPage.GValue (VObj [])]} in
  let σ : gmap string string :=
    {["textbox" := JSON.stringify (VStr "foo")]} in
  let load := Sample.textbox_input {["data-loadfunc" := "storage"]} in
  let save := Sample.textbox_input {["data-savefunc" := "storage"]} in
  let plain := Sample.textbox_input ∅ in
  (∃ pg1 pg2,
     Sample.load (Sample.fresh load w σ) = (Throw TypeError, pg1)
     ∧ DOM.value <$> OptionsPage.document pg1 !! 0%nat = Some EmptyString
     ∧ OptionsPage.update (OptionsPage.Element 0) pg1 = (Throw TypeError, pg2)
     ∧ DOM.value <$> OptionsPage.document pg2 !! 0%nat = Some EmptyString)
  ∧ (∃ pg1, Sample.load (Sample.fresh plain w σ) = (Normal tt, pg1)
            ∧ DOM.value <$> OptionsPage.document pg1 !! 0%nat = Some "foo")
  ∧ (∃ pg1 pg2,
       Sample.load (Sample.fresh save w ∅) = (Normal tt, pg1)
       ∧ OptionsPage.save (OptionsPage.Element 0) pg1 = (Throw TypeError, pg2)
       ∧ OptionsPage.preferences pg2 = ∅)
  ∧ (∃ pg1 pg2,
       Sample.load (Sample.fresh plain w ∅) = (Normal tt, pg1)
       ∧ OptionsPage.save (OptionsPage.Element 0) pg1 = (Normal tt, pg2)
       ∧ OptionsPage.preferences pg2
         = {["textbox" := JSON.stringify (VStr EmptyString)]}).
Proof.
  split; [|split; [|split]].
  - eexists. eexists. split; [vm_compute; reflexivity|].
    split; [reflexivity|]. split; [vm_compute; reflexivity|]. reflexivity.
  - eexists. split; [vm_compute; reflexivity|]. reflexivity.
  - eexists. eexists. split; [vm_compute; reflexivity|].
    split; [vm_compute; reflexivity|]. reflexivity.
  - eexists. eexists. split; [vm_compute; reflexivity|].
    split; [vm_compute; reflexivity|]. reflexivity.
Qed.

(** * What the functions of options_page.js leave alone *)

Section PageInvariants.

Import OptionsPage.

Lemma same_control_refl (e : DOM.Element) : same_control e e.
Proof. by repeat split. Qed.

Lemma same_control_trans (e1 e2 e3 : DOM.Element) :
  same_control e1 e2 → same_control e2 e3 → same_control e1 e3.
Proof.
  intros (? & ? & ? & ? & ?) (? & ? & ? & ? & ?).
  repeat split; congruence.
Qed.

Lemma same_control_assign_value (v : value) (e0 e : DOM.Element) :
  same_control e0 e → same_control e0 (DOM.assign_value v e).
Proof. intros H. apply (same_control_trans _ _ _ H). by repeat split. Qed.

Lemma same_control_assign_checked (v : value) (e0 e : DOM.Element) :
  same_control e0 e → same_control e0 (DOM.assign_checked v e).
Proof. intros H. apply (same_control_trans _ _ _ H). by repeat split. Qed.

Lemma same_control_name (e0 e : DOM.Element) :
  same_control e0 e → DOM.name e = DOM.name e0.
Proof. intros (_ & _ & H & _). unfold DOM.name. by rewrite H. Qed.

Lemma same_control_walked (e0 e : DOM.Element) :
  same_control e0 e → walked e = walked e0.
Proof.
  intros (Htag & Htype & Hattr & _).
  unfold walked, isInput, DOM.name, DOM.hasAttribute.
  by rewrite Htag, Htype, Hattr.
Qed.

Lemma same_page_refl (pg : Page) : same_page pg pg.
Proof.
  split; [|done]. apply Forall2_same_length_lookup. split; [done|].
  intros i e e' H1 H2. rewrite H1 in H2. injection H2 as <-.
  apply same_control_refl.
Qed.

Lemma same_page_lookup (pg0 pg : Page) (id : nat) (e : DOM.Element) :
  same_page pg0 pg → document pg !! id = Some e →
  ∃ e0, document pg0 !! id = Some e0 ∧ same_control e0 e.
Proof.
  intros (Hdoc & _) He.
  destruct (Forall2_lookup_r _ _ _ _ _ Hdoc He) as (e0 & H0 & Hs). eauto.
Qed.

Lemma same_page_lookup_l (pg0 pg : Page) (id : nat) (e0 : DOM.Element) :
  same_page pg0 pg → document pg0 !! id = Some e0 →
  ∃ e, document pg !! id = Some e ∧ same_control e0 e.
Proof.
  intros (Hdoc & _) He.
  destruct (Forall2_lookup_l _ _ _ _ _ Hdoc He) as (e & H0 & Hs). eauto.
Qed.

(** ** The rules of [keeps] *)

Lemma keeps_ret {A} (I : Page → Prop) (a : A) : keeps I (mret a).
Proof. by intros pg. Qed.

Lemma keeps_throw {A} (I : Page → Prop) (e : error) : keeps I (throw (A:=A) e).
Proof. by intros pg. Qed.

Lemma keeps_gets {A} (I : Page → Prop) (f : Page → A) : keeps I (gets f).
Proof. by intros pg. Qed.

Lemma keeps_bind {A B} (I : Page → Prop) (m : Proc Page A)
    (k : A → Proc Page B) :
  keeps I m → (∀ a, keeps I (k a)) → keeps I (m ≫= k).
Proof.
  intros Hm Hk pg Hpg. unfold mbind, Proc_bind.
  specialize (Hm pg Hpg). destruct (m pg) as [[a|e] pg']; [|done].
  by apply Hk.
Qed.

Lemma keeps_forEach {A} (I : Page → Prop) (xs : list A)
    (body : A → Proc Page unit) :
  (∀ x, x ∈ xs → keeps I (body x)) → keeps I (forEach xs body).
Proof.
  induction xs as [|x xs IH]; intros Hbody; [apply keeps_ret|].
  cbn [forEach]. apply keeps_bind.
  - apply Hbody. left.
  - intros _. apply IH. intros y Hy. apply Hbody. by right.
Qed.

Lemma keeps_listeners {A} (I : Page → Prop) (xs : list A)
    (handler : A → Proc Page unit) :
  (∀ x, x ∈ xs → keeps I (handler x)) → keeps I (listeners xs handler).
Proof.
  induction xs as [|x xs IH]; intros Hh; [apply keeps_ret|].
  intros pg Hpg. cbn [listeners snd].
  apply IH; [intros y Hy; apply Hh; by right|].
  apply Hh; [left | done].
Qed.

Lemma keeps_element (I : Page → Prop) (id : nat) : keeps I (element id).
Proof. intros pg Hpg. unfold element. by destruct (document pg !! id). Qed.

(** The element read at [id] is, up to what it shows, the one that the
    page [pg0] has there. *)
Lemma keeps_bind_element {B} (pg0 : Page) (id : nat)
    (k : DOM.Element → Proc Page B) :
  (∀ e0 e, document pg0 !! id = Some e0 → same_control e0 e →
           keeps (same_page pg0) (k e)) →
  keeps (same_page pg0) (element id ≫= k).
Proof.
  intros Hk pg Hpg. unfold mbind, Proc_bind, element.
  destruct (document pg !! id) as [e|] eqn:He; [|done].
  destruct (same_page_lookup pg0 pg id e Hpg He) as (e0 & H0 & Hs).
  by apply (Hk e0 e).
Qed.

Lemma keeps_assign (pg0 : Page) (id : nat) (f : DOM.Element → DOM.Element) :
  (∀ e0 e, same_control e0 e → same_control e0 (f e)) →
  keeps (same_page pg0) (assign id f).
Proof.
  intros Hf pg (Hdoc & Hrest). split; [|done].
  cbn [assign modify snd document set_document].
  apply Forall2_alter_r; [done|]. intros e0 e _ _. apply Hf.
Qed.

Lemma on_storage_get_state (name : string) (pg : Page) :
  (on_storage (Storage.get WebStorage.standard JSON.parse name) pg).2 = pg.
Proof.
  unfold on_storage. destruct (storage pg) as [o|] eqn:Ho; [|done].
  rewrite get_run. cbn [fst snd Storage.this Storage.storage].
  rewrite (set_storage_same o pg Ho). by destruct pg.
Qed.

Lemma keeps_on_storage_get (I : Page → Prop) (name : string) :
  keeps I (on_storage (Storage.get WebStorage.standard JSON.parse name)).
Proof. intros pg Hpg. by rewrite on_storage_get_state. Qed.

(** A page whose web storage is written at the key of the name of an
    element. *)
Lemma same_page_write (pg0 pg : Page) (o : Storage.SettingStorage)
    (e0 : DOM.Element) (text : string) :
  same_page pg0 pg → storage pg = Some o → e0 ∈ document pg0 →
  same_page pg0
    (set_preferences
       (WebStorage.write WebStorage.standard
          (Storage.prefix o +:+ DOM.name e0) text (preferences pg)) pg).
Proof.
  intros (Hdoc & Hw & Hs & Hl & Hk) Ho He0.
  split; [done|]. split; [done|]. split; [done|]. split; [done|].
  intros k Hkey. cbn [preferences set_preferences].
  rewrite lookup_write_ne; [by apply Hk|].
  intros <-. apply (Hkey o e0); [congruence | done | done].
Qed.

Lemma keeps_on_storage_set (pg0 : Page) (e0 : DOM.Element) (v : value) :
  e0 ∈ document pg0 →
  keeps (same_page pg0)
    (on_storage (Storage.set WebStorage.standard JSON.stringify (DOM.name e0) v)).
Proof.
  intros He0 pg Hpg. unfold on_storage.
  destruct (storage pg) as [o|] eqn:Ho; [|done].
  rewrite set_run.
  cbn [fst snd Storage.this Storage.storage Storage.set_storage].
  rewrite (set_storage_same o pg Ho). by apply same_page_write.
Qed.

Lemma keeps_on_storage_reset (pg0 : Page) (e0 : DOM.Element) :
  e0 ∈ document pg0 →
  keeps (same_page pg0)
    (on_storage (Storage.reset WebStorage.standard JSON.stringify (DOM.name e0))).
Proof.
  intros He0 pg Hpg. unfold on_storage.
  destruct (storage pg) as [o|] eqn:Ho; [|done].
  rewrite reset_run.
  cbn [fst snd Storage.this Storage.storage Storage.set_storage].
  rewrite (set_storage_same o pg Ho). by apply same_page_write.
Qed.

Lemma keeps_setup_assign (pg0 : Page) (id : nat)
    (f : DOM.Element → DOM.Element) :
  keeps (same_setup pg0) (assign id f).
Proof. by intros pg Hpg. Qed.

Lemma keeps_setup_on_storage {A} (pg0 : Page) (m : Proc Storage.state A) :
  keeps (same_setup pg0) (on_storage m).
Proof.
  intros pg Hpg. unfold on_storage. by destruct (storage pg).
Qed.

(** ** The functions of the page *)

Create HintDb keeps discriminated.

#[local] Hint Resolve keeps_ret keeps_throw keeps_gets keeps_element
  keeps_on_storage_get keeps_setup_assign keeps_setup_on_storage : keeps.

Ltac keeps_step :=
  first
    [ solve [auto 1 with keeps nocore]
    | apply keeps_assign; intros ? ?;
      first [apply same_control_assign_value | apply same_control_assign_checked]
    | apply keeps_bind_element; intros ? ? ? ?
    | apply keeps_bind; [|intros ?]
    | apply keeps_forEach; intros ? ?
    | apply keeps_listeners; intros ? ?
    | match goal with
      | |- keeps _ (if ?b then _ else _) => destruct b
      | |- keeps _ (match ?x with _ => _ end) => destruct x
      end ].

Ltac keeps_auto := cbv zeta; repeat (keeps_step; cbv zeta).

Lemma keeps_coerceToLimits_page (pg0 : Page) (id : nat) (v : option value) :
  keeps (same_page pg0) (coerceToLimits id v).
Proof. unfold coerceToLimits. keeps_auto. Qed.

Lemma keeps_coerceToLimits_setup (pg0 : Page) (id : nat) (v : option value) :
  keeps (same_setup pg0) (coerceToLimits id v).
Proof. unfold coerceToLimits. keeps_auto. Qed.

Lemma keeps_getRadioValue (I : Page → Prop) (id : nat) :
  keeps I (getRadioValue id).
Proof.
  unfold getRadioValue. apply keeps_bind; [apply keeps_element|].
  intros e. keeps_auto.
Qed.

Lemma keeps_getTransformFunction (I : Page → Prop) (e : DOM.Element)
    (type : string) :
  keeps I (getTransformFunction e type).
Proof. unfold getTransformFunction. keeps_auto. Qed.

Lemma keeps_apply_filter (I : Page → Prop) (filter : option Global)
    (v : value) :
  keeps I (apply_filter filter v).
Proof. unfold apply_filter. keeps_auto. Qed.

#[local] Hint Resolve keeps_coerceToLimits_page keeps_coerceToLimits_setup
  keeps_getRadioValue keeps_getTransformFunction keeps_apply_filter : keeps.

Lemma keeps_elementChanged_page (pg0 : Page) (id : nat) :
  keeps (same_page pg0) (elementChanged id).
Proof.
  unfold elementChanged.
  apply keeps_bind_element. intros e0 e He0 Hs. cbv zeta.
  rewrite (same_control_name e0 e Hs).
  repeat case_bool_decide; keeps_auto;
    apply keeps_on_storage_set; by eapply list_elem_of_lookup_2.
Qed.

Lemma keeps_elementChanged_setup (pg0 : Page) (id : nat) :
  keeps (same_setup pg0) (elementChanged id).
Proof. unfold elementChanged. repeat case_bool_decide; keeps_auto. Qed.

#[local] Hint Resolve keeps_elementChanged_page keeps_elementChanged_setup
  : keeps.

Lemma keeps_updateElement_page (pg0 : Page) (id : nat)
    (name type : option string) :
  keeps (same_page pg0) (updateElement id name type).
Proof. unfold updateElement. keeps_auto. Qed.

Lemma keeps_updateElement_setup (pg0 : Page) (id : nat)
    (name type : option string) :
  keeps (same_setup pg0) (updateElement id name type).
Proof. unfold updateElement. keeps_auto. Qed.

#[local] Hint Resolve keeps_updateElement_page keeps_updateElement_setup
  : keeps.

Lemma keeps_one_or_each (I : Page → Prop) (id : nat)
    (f : nat → Proc Page unit) :
  keeps I (f id) → keeps I (one_or_each id f).
Proof. intros Hf. unfold one_or_each. keeps_auto. Qed.

Lemma keeps_update_page (pg0 : Page) (t : target) :
  keeps (same_page pg0) (update t).
Proof.
  destruct t; cbn [update]; [keeps_auto| |keeps_auto].
  apply keeps_one_or_each. auto with keeps.
Qed.

Lemma keeps_update_setup (pg0 : Page) (t : target) :
  keeps (same_setup pg0) (update t).
Proof.
  destruct t; cbn [update]; [keeps_auto| |keeps_auto].
  apply keeps_one_or_each. auto with keeps.
Qed.

Lemma keeps_querySelector_name (I : Page → Prop) (name : string) :
  keeps I (querySelector_name name).
Proof. unfold querySelector_name. keeps_auto. Qed.

#[local] Hint Resolve keeps_querySelector_name : keeps.

Lemma keeps_save_page (pg0 : Page) (t : target) :
  keeps (same_page pg0) (save t).
Proof.
  destruct t; cbn [save]; keeps_auto; apply keeps_one_or_each;
    auto with keeps.
Qed.

Lemma keeps_save_setup (pg0 : Page) (t : target) :
  keeps (same_setup pg0) (save t).
Proof.
  destruct t; cbn [save]; keeps_auto; apply keeps_one_or_each;
    auto with keeps.
Qed.

Lemma keeps_reset_click_page (pg0 : Page) (id : nat) :
  keeps (same_page pg0)
    (e ← element id;
     on_storage (Storage.reset WebStorage.standard JSON.stringify (DOM.name e)) ;;
     updateElement id None None).
Proof.
  apply keeps_bind_element. intros e0 e He0 Hs.
  rewrite (same_control_name e0 e Hs). apply keeps_bind; [|auto with keeps].
  apply keeps_on_storage_reset. by eapply list_elem_of_lookup_2.
Qed.

(** The setup that [pg] has, apart from the page itself. *)
Lemma same_page_fields (pg0 pg pg' : Page) :
  same_page pg0 pg →
  document pg' = document pg → window pg' = window pg →
  storage pg' = storage pg → loading pg' = loading pg →
  preferences pg' = preferences pg →
  same_page pg0 pg'.
Proof.
  intros (Hdoc & Hw & Hs & Hl & Hk) E1 E2 E3 E4 E5. unfold same_page.
  rewrite E1, E2, E3, E4, E5. done.
Qed.

Lemma keeps_page_modify (pg0 : Page) (f : Page → Page) :
  (∀ pg, document (f pg) = document pg ∧ window (f pg) = window pg
         ∧ storage (f pg) = storage pg ∧ loading (f pg) = loading pg
         ∧ preferences (f pg) = preferences pg) →
  keeps (same_page pg0) (modify f).
Proof.
  intros Hf pg Hpg. destruct (Hf pg) as (? & ? & ? & ? & ?).
  by apply (same_page_fields pg0 pg).
Qed.

Lemma keeps_setupElement_page (pg0 : Page) (id : nat)
    (name type : option string) :
  keeps (same_page pg0) (setupElement id name type).
Proof.
  unfold setupElement. apply keeps_bind; [apply keeps_element|]. intros e.
  cbv zeta. apply keeps_bind; [|auto with keeps].
  apply keeps_page_modify. intros pg. by case_bool_decide.
Qed.

Lemma keeps_addResetButton_page (pg0 : Page) (button id : nat) :
  keeps (same_page pg0) (addResetButton button id).
Proof. apply keeps_page_modify. by intros pg. Qed.

#[local] Hint Resolve keeps_setupElement_page keeps_addResetButton_page
  : keeps.

Lemma keeps_walkElements_page (pg0 : Page)
    (callback : nat → string → string → Proc Page unit) :
  (∀ id name type, keeps (same_page pg0) (callback id name type)) →
  keeps (same_page pg0) (walkElements callback).
Proof. intros Hcb. unfold walkElements. keeps_auto. Qed.

Lemma keeps_setupAllResetButtons_page (pg0 : Page) :
  keeps (same_page pg0) setupAllResetButtons.
Proof. unfold setupAllResetButtons. keeps_auto. Qed.

Lemma keeps_onDOMContentLoaded_page (pg0 : Page) :
  keeps (same_page pg0) onDOMContentLoaded.
Proof.
  unfold onDOMContentLoaded. apply keeps_bind; [apply keeps_gets|].
  intros doc. apply keeps_bind; [by apply keeps_page_modify|]. intros _.
  apply keeps_bind.
  { apply keeps_walkElements_page. auto with keeps. }
  intros _. apply keeps_bind; [apply keeps_setupAllResetButtons_page|].
  intros _. by apply keeps_page_modify.
Qed.

Lemma keeps_dispatch_page (pg0 : Page) (ev : event) :
  keeps (same_page pg0) (dispatch ev).
Proof.
  destruct ev; cbn [dispatch].
  - apply keeps_bind; [apply keeps_gets|]. intros [|]; [|apply keeps_ret].
    apply keeps_onDOMContentLoaded_page.
  - keeps_auto.
  - apply keeps_bind; [apply keeps_gets|]. intros ps.
    apply keeps_listeners. intros p _. apply keeps_reset_click_page.
Qed.

Lemma keeps_dispatch_setup (pg0 : Page) (ev : event) :
  ev ≠ DOMContentLoaded → keeps (same_setup pg0) (dispatch ev).
Proof. destruct ev; [done|..]; intros _; cbn [dispatch]; keeps_auto. Qed.

Lemma keeps_findResetButton (I : Page → Prop) (name : string) :
  keeps I (findResetButton name).
Proof. unfold findResetButton. keeps_auto. Qed.

#[local] Hint Resolve keeps_findResetButton : keeps.

Lemma keeps_addInput_page (pg0 : Page) (id : nat) (resetbutton : option nat) :
  keeps (same_page pg0) (addInput id resetbutton).
Proof. unfold addInput. keeps_auto. Qed.

(** ** What is set up, and when *)

Lemma setupElement_run (id : nat) (name type : option string) (pg : Page) :
  setupElement id name type pg =
    match document pg !! id with
    | Some e =>
        updateElement id (Some (or_else name (DOM.name e)))
          (Some (or_else type (toLowerCase (DOM.type e))))
          (if bool_decide (id ∈ change pg) then pg
           else set_change (change pg ++ [id]) pg)
    | None => (Throw TypeError, pg)
    end.
Proof.
  unfold setupElement, element. unfold mbind at 1, Proc_bind at 1.
  by destruct (document pg !! id).
Qed.

Lemma setupElement_setup (id : nat) (name type : option string) (pg : Page) :
  let pg' := (setupElement id name type pg).2 in
  initialized pg' = initialized pg ∧ formElements pg' = formElements pg
  ∧ click pg' = click pg
  ∧ change pg' =
      match document pg !! id with
      | Some _ => if bool_decide (id ∈ change pg) then change pg
                  else (change pg ++ [id])%list
      | None => change pg
      end.
Proof.
  cbv zeta. rewrite setupElement_run.
  destruct (document pg !! id) as [e|]; [|done].
  set (pg1 := if bool_decide (id ∈ change pg) then pg else _).
  destruct (keeps_updateElement_setup pg1 id
              (Some (or_else name (DOM.name e)))
              (Some (or_else type (toLowerCase (DOM.type e)))) pg1)
    as (H1 & H2 & H3 & H4); [done|].
  rewrite H1, H2, H3, H4. unfold pg1. by case_bool_decide.
Qed.

(** The test of [walkElements] on the element [e]. *)
Lemma walked_test (e : DOM.Element) :
  isInput e = true →
  walked e = negb (bool_decide (toLowerCase (DOM.type e) ∈ skip)
                   || String.eqb (DOM.name e) EmptyString
                   || DOM.hasAttribute e "data-nosave").
Proof. intros H. unfold walked. by rewrite H. Qed.

Lemma forEach_cons {S A} (x : A) (xs : list A) (body : A → Proc S unit)
    (s : S) :
  forEach (x :: xs) body s =
    match body x s with
    | (Normal _, s') => forEach xs body s'
    | (Throw e, s') => (Throw e, s')
    end.
Proof. reflexivity. Qed.

Lemma walk_setup (pg0 : Page) (ids : list nat) (pg : Page) :
  same_page pg0 pg →
  (∀ id e, id ∈ ids → document pg0 !! id = Some e → isInput e = true) →
  let body := λ id : nat,
    e ← element id;
    if bool_decide (toLowerCase (DOM.type e) ∈ skip)
       || String.eqb (DOM.name e) EmptyString
       || DOM.hasAttribute e "data-nosave"
    then mret tt
    else setupElement id (Some (DOM.name e)) (Some (toLowerCase (DOM.type e))) in
  let r := forEach ids body pg in
  initialized r.2 = initialized pg ∧ formElements r.2 = formElements pg
  ∧ click r.2 = click pg
  ∧ (∀ id, id ∈ change pg → id ∈ change r.2)
  ∧ (∀ id, id ∈ change r.2 →
       id ∈ change pg
       ∨ id ∈ ids ∧ ∃ e, document pg0 !! id = Some e ∧ walked e = true)
  ∧ (r.1 = Normal tt → ∀ id e, id ∈ ids → document pg0 !! id = Some e →
       walked e = true → id ∈ change r.2).
Proof.
  intros Hpg Hin body. revert pg Hpg.
  induction ids as [|i ids IH]; intros pg Hpg.
  - cbn. repeat split; try done.
    + intros id H. by left.
    + intros _ id e H. by apply elem_of_nil in H.
  - cbn zeta. rewrite forEach_cons.
    assert (same_page pg0 (body i pg).2) as Hpg1.
    { apply (keeps_bind_element pg0 i); [|done]. intros e0 e _ _.
      destruct (_ || _); auto with keeps. }
    assert (
      initialized (body i pg).2 = initialized pg
      ∧ formElements (body i pg).2 = formElements pg
      ∧ click (body i pg).2 = click pg
      ∧ (∀ id, id ∈ change pg → id ∈ change (body i pg).2)
      ∧ (∀ id, id ∈ change (body i pg).2 →
           id ∈ change pg
           ∨ id = i ∧ ∃ e, document pg0 !! id = Some e ∧ walked e = true)
      ∧ ((body i pg).1 = Normal tt → ∀ e, document pg0 !! i = Some e →
           walked e = true → i ∈ change (body i pg).2)) as Hstep.
    { unfold body. unfold mbind, Proc_bind, element.
      destruct (document pg !! i) as [e|] eqn:He.
      - destruct (same_page_lookup pg0 pg i e Hpg He) as (e0 & He0 & Hs).
        pose proof (same_control_walked e0 e Hs) as Hw.
        rewrite walked_test in Hw
          by (destruct Hs as (Ht & _); unfold isInput; rewrite Ht;
              apply (Hin i e0); [left | done]).
        destruct (_ || _) eqn:Hskip.
        + cbn. repeat split; try done.
          * intros id H. by left.
          * intros _ e' He'. rewrite He0 in He'. injection He' as <-.
            intros H. rewrite H in Hw. done.
        + destruct (setupElement_setup i (Some (DOM.name e))
                      (Some (toLowerCase (DOM.type e))) pg)
            as (H1 & H2 & H3 & H4). cbv zeta in *. rewrite He in H4.
          rewrite H1, H2, H3, H4.
          repeat split; try done.
          * intros id H. case_bool_decide; [done|].
            apply elem_of_app. by left.
          * intros id H. case_bool_decide as Hc; [by left|].
            apply elem_of_app in H as [H|H]; [by left|].
            apply list_elem_of_singleton in H as ->. right. split; [done|].
            exists e0. split; [done|]. by rewrite <- Hw.
          * intros _ e' _ _. case_bool_decide; [done|].
            apply elem_of_app. right. left.
      - cbn. repeat split; try done. intros id H. by left. }
    destruct Hstep as (S1 & S2 & S3 & S4 & S5 & S6).
    destruct (body i pg) as [[[]|err] pg1] eqn:Hb; cbn [fst snd] in *.
    + destruct (IH (λ id e H, Hin id e (list_elem_of_further _ _ _ H)) pg1 Hpg1)
        as (I1 & I2 & I3 & I4 & I5 & I6).
      cbv zeta in I1, I2, I3, I4, I5, I6. fold body in I1, I2, I3, I4, I5, I6.
      rewrite I1, I2, I3, S1, S2, S3. repeat split; try done.
      * intros id H. by apply I4, S4.
      * intros id H. apply I5 in H as [H|(H & e & He)].
        -- apply S5 in H as [H|(-> & e & He)]; [by left|].
           right. split; [left | by exists e].
        -- right. split; [by right | by exists e].
      * intros Hr id e Hid He Hw. apply elem_of_cons in Hid as [->|Hid].
        -- apply I4. by apply (S6 eq_refl e).
        -- by apply (I6 Hr id e).
    + rewrite S1, S2, S3. repeat split; try done.
      intros id H. apply S5 in H as [H|(-> & e & He)]; [by left|].
      right. split; [left | by exists e].
Qed.

Lemma elem_of_select (p : DOM.Element → bool) (doc : list DOM.Element)
    (id : nat) :
  id ∈ DOM.select p doc ↔ ∃ e, doc !! id = Some e ∧ p e = true.
Proof.
  unfold DOM.select. rewrite list_elem_of_fmap. split.
  - intros ([i e] & -> & [Hp Hin]%list_elem_of_filter).
    apply elem_of_lookup_imap in Hin as (j & y & [= -> ->] & Hy). eauto.
  - intros (e & He & Hp). exists (id, e). split; [done|].
    apply list_elem_of_filter. split; [done|].
    apply elem_of_lookup_imap. eauto.
Qed.

Lemma setupAllResetButtons_setup (pg : Page) :
  let pg' := (setupAllResetButtons pg).2 in
  initialized pg' = initialized pg ∧ formElements pg' = formElements pg
  ∧ change pg' = change pg.
Proof.
  cbv zeta.
  assert (keeps (λ pg', initialized pg' = initialized pg
                        ∧ formElements pg' = formElements pg
                        ∧ change pg' = change pg) setupAllResetButtons) as H.
  { unfold setupAllResetButtons. keeps_auto. by intros pg1 H1. }
  by apply H.
Qed.

Lemma onDOMContentLoaded_run (pg : Page) :
  onDOMContentLoaded pg =
    let pg1 := set_formElements (DOM.select isInput (document pg)) pg in
    match
      forEach (DOM.select isInput (document pg)) (λ id : nat,
        e ← element id;
        if bool_decide (toLowerCase (DOM.type e) ∈ skip)
           || String.eqb (DOM.name e) EmptyString
           || DOM.hasAttribute e "data-nosave"
        then mret tt
        else setupElement id (Some (DOM.name e))
               (Some (toLowerCase (DOM.type e)))) pg1
    with
    | (Normal _, pg2) =>
        match setupAllResetButtons pg2 with
        | (Normal _, pg3) => (Normal tt, set_initialized true pg3)
        | (Throw e, pg3) => (Throw e, pg3)
        end
    | (Throw e, pg2) => (Throw e, pg2)
    end.
Proof. reflexivity. Qed.

(** The handler of DOMContentLoaded, however it ends, leaves the page as
    [same_page] says; it sets [formElements] to the [input], [select] and
    [textarea] elements; [initialized] is true after it when it returns and
    unchanged when it throws; it removes no change listener; it adds change
    listeners only to elements that [walkElements] walks (form controls with
    a name, without [data-nosave], of a type with a value to save); and when
    it returns, every such element has its change listener. *)
Theorem load_binds_walked_elements (pg : Page) :
  let r := onDOMContentLoaded pg in
  same_page pg r.2
  ∧ formElements r.2 = DOM.select isInput (document pg)
  ∧ initialized r.2 = match r.1 with
                      | Normal _ => true
                      | Throw _ => initialized pg
                      end
  ∧ (∀ id, id ∈ change pg → id ∈ change r.2)
  ∧ (∀ id, id ∈ change r.2 →
       id ∈ change pg ∨ ∃ e, document pg !! id = Some e ∧ walked e = true)
  ∧ (r.1 = Normal tt → ∀ id e, document pg !! id = Some e →
       walked e = true → id ∈ change r.2).
Proof.
  cbv zeta. split; [by apply keeps_onDOMContentLoaded_page, same_page_refl|].
  rewrite onDOMContentLoaded_run. cbv zeta.
  set (ids := DOM.select isInput (document pg)).
  set (pg1 := set_formElements ids pg).
  assert (same_page pg pg1) as Hpg1
    by (by apply (same_page_fields pg pg); [apply same_page_refl|..]).
  destruct (walk_setup pg ids pg1 Hpg1) as (W1 & W2 & W3 & W4 & W5 & W6).
  { intros id e Hid He. apply elem_of_select in Hid as (e' & He' & Hp).
    congruence. }
  cbv zeta in W1, W2, W3, W4, W5, W6.
  destruct (forEach ids _ pg1) as [[[]|err] pg2]; cbn [fst snd] in *.
  - destruct (setupAllResetButtons_setup pg2) as (R1 & R2 & R3).
    cbv zeta in R1, R2, R3.
    destruct (setupAllResetButtons pg2) as [[[]|err] pg3]; cbn [fst snd] in *.
    + cbn [formElements initialized change set_initialized].
      rewrite R2, R3, W2. repeat split; try done.
      * intros id Hid. apply W5 in Hid as [?|(_ & ?)]; [by left | by right].
      * intros _ id e He Hw. apply (W6 eq_refl id e); [|done|done].
        apply elem_of_select. exists e. split; [done|].
        unfold walked in Hw. by apply andb_true_iff in Hw as [? _].
    + rewrite R1, R2, R3, W1, W2. repeat split; try done.
      intros id Hid. apply W5 in Hid as [?|(_ & ?)]; [by left | by right].
  - rewrite W1, W2. repeat split; try done.
    intros id Hid. apply W5 in Hid as [?|(_ & ?)]; [by left | by right].
Qed.

(** What the functions of the page leave alone, however they end: the
    elements, but for what they show; the global scope; the
    [SettingStorage]; and the keys of the web storage that are not the prefix
    followed by the name of an element of the page.  [update], [save] and the
    handlers of the change and click events also leave alone the variables
    of [OptionsPage] and the listeners. *)
Theorem page_functions_leave_alone (pg : Page) :
  (∀ t, same_page pg (update t pg).2 ∧ same_setup pg (update t pg).2)
  ∧ (∀ t, same_page pg (save t pg).2 ∧ same_setup pg (save t pg).2)
  ∧ (∀ ev, same_page pg (dispatch ev pg).2)
  ∧ (∀ ev, ev ≠ DOMContentLoaded → same_setup pg (dispatch ev pg).2)
  ∧ (∀ id resetbutton, same_page pg (addInput id resetbutton pg).2).
Proof.
  pose proof (same_page_refl pg) as Hpg.
  assert (same_setup pg pg) as Hset by done.
  split; [|split; [|split; [|split]]].
  - intros t. split;
      [by apply keeps_update_page | by apply keeps_update_setup].
  - intros t. split; [by apply keeps_save_page | by apply keeps_save_setup].
  - intros ev. by apply keeps_dispatch_page.
  - intros ev Hev. by apply keeps_dispatch_setup.
  - intros id r. by apply keeps_addInput_page.
Qed.

Lemma isInput_tagName (e : DOM.Element) :
  isInput e = true → String.eqb (DOM.tagName e) EmptyString = false.
Proof. unfold isInput. by destruct (DOM.tagName e). Qed.

(** [addInput]: before the handler of DOMContentLoaded has run to its end,
    it throws its error and changes nothing; afterwards, for an element that
    is no [input], [select] or [textarea], it returns and changes nothing,
    and for one that is, whatever its type, its name and its attributes, the
    element has a change listener when [addInput] ends, every listener that
    there was is still there, and the given reset button, when [addInput]
    returns, has a click listener for the element. *)
Theorem addInput_cases (pg : Page) (id : nat) (resetbutton : option nat) :
  (initialized pg = false →
     addInput id resetbutton pg =
       (Throw (Error "OptionsPage.addInput cannot be called before the DOMContentLoaded event has fired."),
        pg))
  ∧ (initialized pg = true → ∀ e, document pg !! id = Some e →
       (isInput e = false → addInput id resetbutton pg = (Normal tt, pg))
       ∧ (isInput e = true →
            let r := addInput id resetbutton pg in
            id ∈ change r.2
            ∧ (∀ i, i ∈ change pg → i ∈ change r.2)
            ∧ (∀ p, p ∈ click pg → p ∈ click r.2)
            ∧ (∀ b, resetbutton = Some b → r.1 = Normal tt →
                 (b, id) ∈ click r.2))).
Proof.
  split.
  - intros Hi. unfold addInput, mbind, Proc_bind, gets. by rewrite Hi.
  - intros Hi e He.
    assert (addInput id resetbutton pg =
      (if negb (String.eqb (DOM.tagName e) EmptyString) && isInput e then
         setupElement id None None ;;
         e ← element id;
         reset ← match resetbutton with
                 | Some b => mret (Some b)
                 | None => findResetButton (DOM.name e)
                 end;
         match reset with
         | Some b => addResetButton b id
         | None => mret tt
         end
       else mret tt) pg) as ->.
    { unfold addInput. unfold mbind at 1, Proc_bind at 1, gets.
      rewrite Hi. cbn [negb]. unfold mbind at 1, Proc_bind at 1.
      by rewrite (element_run id pg e He). }
    split.
    + intros Hin. by rewrite Hin, andb_false_r.
    + intros Hin. rewrite Hin, (isInput_tagName e Hin). cbn [negb andb].
      cbv zeta. unfold mbind, Proc_bind.
      destruct (setupElement_setup id None None pg) as (S1 & S2 & S3 & S4).
      cbv zeta in S1, S2, S3, S4. rewrite He in S4.
      pose proof (keeps_setupElement_page pg id None None pg
                    (same_page_refl pg)) as Hpg1.
      assert (id ∈ change (setupElement id None None pg).2
              ∧ ∀ i, i ∈ change pg → i ∈ change (setupElement id None None pg).2)
        as [Hid Hsub].
      { rewrite S4. case_bool_decide; [done|]. split.
        - apply elem_of_app. right. left.
        - intros i Hi'. apply elem_of_app. by left. }
      destruct (setupElement id None None pg) as [[[]|err] pg1];
        cbn [fst snd] in *; [|by rewrite S3].
      destruct (same_page_lookup_l pg pg1 id e Hpg1 He) as (e1 & He1 & _).
      rewrite (element_run id pg1 e1 He1).
      destruct resetbutton as [b|].
      * unfold mret, Proc_ret, addResetButton, modify.
        cbn [fst snd change click set_click]. rewrite S3.
        repeat split; try done.
        -- intros p Hp. apply elem_of_app. by left.
        -- intros b' [= <-] _. apply elem_of_app. right. left.
      * assert ((findResetButton (DOM.name e1) pg1).2 = pg1) as Hf.
        { unfold findResetButton. by destruct (selector_string _). }
        destruct (findResetButton (DOM.name e1) pg1) as [[[b|]|err] pg2];
          cbn [snd] in Hf; subst pg2; cbn [fst snd].
        -- unfold addResetButton, modify.
           cbn [fst snd change click set_click]. rewrite S3.
           repeat split; try done.
           intros p Hp. apply elem_of_app. by left.
        -- unfold mret, Proc_ret. cbn [fst snd]. by rewrite S3.
        -- by rewrite S3.
Qed.

End PageInvariants.

(** * Saving and showing a checkbox *)

Section PageRoundTrip.

Import OptionsPage.

Ltac decide_types :=
  repeat match goal with
         | |- context [@bool_decide (toLowerCase ?t ∈ ?h) ?D] =>
             let b := eval vm_compute in (@bool_decide (toLowerCase t ∈ h) D) in
             change (@bool_decide (toLowerCase t ∈ h) D) with b
         end; cbn iota.

Lemma list_alter_fix {A} (f : A → A) (l : list A) (i : nat) (x : A) :
  l !! i = Some x → f x = x → alter f i l = l.
Proof.
  intros Hi Hx. apply list_eq. intros j.
  destruct (decide (i = j)) as [<-|Hne].
  - rewrite list_lookup_alter_eq, Hi. cbn. by rewrite Hx.
  - by rewrite list_lookup_alter_ne.
Qed.

Lemma set_document_same (pg : Page) : set_document (document pg) pg = pg.
Proof. by destruct pg. Qed.

Lemma parse_stringify_bool (b : bool) :
  JSON.parse (JSON.stringify (VBool b)) = Some (VBool b).
Proof. by destruct b; vm_compute. Qed.

(** A change event on a checkbox without transforms, whose key is not the
    name of a member of the web storage object, stores the state of the
    checkbox; showing the stored value afterwards leaves the checkbox as it
    is. *)
Theorem checkbox_saved_then_shown (id : nat) (pg : Page) (e : DOM.Element)
    (o : Storage.SettingStorage) :
  document pg !! id = Some e → storage pg = Some o →
  DOM.type e = "checkbox" →
  DOM.getAttribute e "data-savefunc" = None →
  DOM.getAttribute e "data-loadfunc" = None →
  WebStorage.member WebStorage.standard (Storage.prefix o +:+ DOM.name e)
    = false →
  (elementChanged id ;; updateElement id None None) pg =
    (Normal tt,
     set_preferences
       (<[Storage.prefix o +:+ DOM.name e :=
            if DOM.checked e then "true" else "false"]> (preferences pg)) pg).
Proof.
  intros Hid Ho Ht Hsave Hload Hmem.
  assert (elementChanged id pg =
    (Normal tt,
     set_preferences
       (<[Storage.prefix o +:+ DOM.name e :=
            if DOM.checked e then "true" else "false"]> (preferences pg)) pg))
    as Hchanged.
  { unfold elementChanged. unfold mbind at 1, Proc_bind at 1.
    rewrite (element_run id pg e Hid). cbn zeta. rewrite Ht. decide_types.
    unfold getTransformFunction.
    change ("data-" +:+ "savefunc") with "data-savefunc". rewrite Hsave.
    unfold mbind, Proc_bind, mret, Proc_ret. cbn [apply_filter].
    unfold mret, Proc_ret. rewrite (on_storage_set _ _ pg o Ho).
    unfold WebStorage.write. rewrite Hmem. cbn [andb].
    by destruct (DOM.checked e). }
  unfold mbind at 1, Proc_bind at 1. rewrite Hchanged.
  set (pg1 := set_preferences _ pg).
  assert (document pg1 !! id = Some e) as Hid1 by done.
  assert (storage pg1 = Some o) as Ho1 by done.
  unfold updateElement. unfold mbind at 1, Proc_bind at 1.
  rewrite (element_run id pg1 e Hid1). cbn zeta. cbn [or_else].
  rewrite Ht. decide_types.
  unfold mbind at 1, Proc_bind at 1.
  rewrite (on_storage_get (DOM.name e) pg1 o
             (JSON.stringify (VBool (DOM.checked e)))
             (VBool (DOM.checked e)) Ho1).
  - unfold getTransformFunction.
    change ("data-" +:+ "loadfunc") with "data-loadfunc". rewrite Hload.
    unfold mbind, Proc_bind, mret, Proc_ret. cbn [apply_filter].
    unfold mret, Proc_ret. rewrite assign_run.
    rewrite (list_alter_fix _ _ id e Hid1) by (by destruct e).
    by rewrite set_document_same.
  - unfold WebStorage.read. rewrite Hmem. unfold pg1.
    cbn [preferences set_preferences]. rewrite lookup_insert_eq.
    by destruct (DOM.checked e).
  - apply parse_stringify_bool.
Qed.

Lemma checkbox_saved_then_shown_witness :
  let e := DOM.mkElement "INPUT" "checkbox" "on" true {["name" := "checkbox"]}
             None None in
  let pg := mkPage [e] ∅ ∅ (Some Sample.later_run) true [0%nat] false [0%nat]
              [] in
  (elementChanged 0 ;; updateElement 0 None None) pg =
    (Normal tt, set_preferences {["checkbox" := "true"]} pg).
Proof.
  intros e pg.
  apply (checkbox_saved_then_shown 0 pg e Sample.later_run); reflexivity.
Defined.

End PageRoundTrip.
